(** * X10mqtt gateway: a shallow embedding of [x10mqtt.py]

    The gateway bridges MQTT and X10 through the [heyu] command.  This file
    embeds the script's functions ([execute], [monitor], [rcviaddr],
    [rcvifunc], [on_connect], [on_message], [ha_discovery_announce] and the
    main monitor loop) together with the parts of the Python library they
    rest on ([str.upper], [str.lower], [str.split], [re], [json.dumps]).

    Text is a [string] of 8-bit characters read as ASCII: [upper] and [lower]
    change the letters a-z and A-Z only, and [json_dumps] escapes everything
    outside the printable ASCII range.  The outside world is explicit: what
    the program prints, runs, subscribes to and publishes is recorded, in
    order, in the [log] of a [world]; the exit code of a [heyu] run and the
    output of [heyu monitor] are inputs.  A message carries its payload as
    decoded text, and [heyu] is taken to be installed, so that running it
    gives an exit code. *)

From Stdlib Require Import String Ascii List Bool Arith ZArith NArith Lia.
From Stdlib Require Import DecimalString.
Import ListNotations.
Local Open Scope list_scope.
Local Open Scope string_scope.

(** ** Python strings *)

Module Py.

Definition newline : ascii := "010"%char.
Definition dquote : ascii := "034"%char.
Definition squote : ascii := "039"%char.
Definition backslash : ascii := "092"%char.

(** [lo <= c <= hi] on character codes. *)
Definition in_range (lo hi c : ascii) : bool :=
  (N_of_ascii lo <=? N_of_ascii c)%N && (N_of_ascii c <=? N_of_ascii hi)%N.

Definition upper_char (c : ascii) : ascii :=
  if in_range "a" "z" c then ascii_of_N (N_of_ascii c - 32) else c.

Definition lower_char (c : ascii) : ascii :=
  if in_range "A" "Z" c then ascii_of_N (N_of_ascii c + 32) else c.

Fixpoint map_string (f : ascii -> ascii) (s : string) : string :=
  match s with
  | EmptyString => EmptyString
  | String c s' => String (f c) (map_string f s')
  end.

(** [s.upper()] and [s.lower()]. *)
Definition upper : string -> string := map_string upper_char.
Definition lower : string -> string := map_string lower_char.

(** [s.split(sep)] for a one-character separator: never an empty list. *)
Fixpoint split (sep : ascii) (s : string) : list string :=
  match s with
  | EmptyString => [EmptyString]
  | String c s' =>
      if Ascii.eqb c sep then EmptyString :: split sep s'
      else match split sep s' with
           | h :: t => String c h :: t
           | [] => [String c EmptyString]
           end
  end.

(** [x in l] for a list of strings. *)
Definition str_in (x : string) (l : list string) : bool :=
  existsb (String.eqb x) l.

(** [c in s] for a character [c] of a string being iterated. *)
Fixpoint char_in (c : ascii) (s : string) : bool :=
  match s with
  | EmptyString => false
  | String x s' => Ascii.eqb c x || char_in c s'
  end.

(** [str(n)] for a non-negative and for a signed integer. *)
Definition str_nat (n : nat) : string := NilZero.string_of_uint (Nat.to_uint n).
Definition str_int (z : Z) : string := NilZero.string_of_int (Z.to_int z).

(** A string is true when it is not empty. *)
Definition truthy (s : string) : bool :=
  match s with EmptyString => false | _ => true end.

Fixpoint join (sep : string) (l : list string) : string :=
  match l with
  | [] => EmptyString
  | [x] => x
  | x :: l' => x ++ sep ++ join sep l'
  end.

Definition hex_digit (n : N) : ascii :=
  if (n <? 10)%N then ascii_of_N (48 + n) else ascii_of_N (87 + n).

(** ['\\u{0:04x}'.format(n)] for a character code below 256. *)
Definition u_escape (c : ascii) : string :=
  String backslash
    (String "u" (String "0" (String "0"
      (String (hex_digit (N_of_ascii c / 16))
        (String (hex_digit (N_of_ascii c mod 16)) EmptyString))))).

(** One character of a JSON string, as [json.dumps] writes it with its
    default [ensure_ascii=True]. *)
Definition json_escape_char (c : ascii) : string :=
  if Ascii.eqb c dquote then String backslash (String dquote EmptyString)
  else if Ascii.eqb c backslash then String backslash (String backslash EmptyString)
  else if Ascii.eqb c newline then String backslash "n"
  else if Ascii.eqb c "013"%char then String backslash "r"
  else if Ascii.eqb c "009"%char then String backslash "t"
  else if Ascii.eqb c "012"%char then String backslash "f"
  else if Ascii.eqb c "008"%char then String backslash "b"
  else if in_range " " "~" c then String c EmptyString
  else u_escape c.

Fixpoint json_escape (s : string) : string :=
  match s with
  | EmptyString => EmptyString
  | String c s' => json_escape_char c ++ json_escape s'
  end.

Definition json_string (s : string) : string :=
  String dquote (json_escape s ++ String dquote EmptyString).

(** A [dict] with string keys and values, in insertion order. *)
Definition dict := list (string * string).

Definition keys (d : dict) : list string := map fst d.

Fixpoint dict_get (d : dict) (k : string) : option string :=
  match d with
  | [] => None
  | (k', v) :: d' => if String.eqb k k' then Some v else dict_get d' k
  end.

(** [json.dumps(d)] with the default separators. *)
Definition json_dumps (d : dict) : string :=
  "{" ++ join ", " (map (fun kv => json_string (fst kv) ++ ": " ++ json_string (snd kv)) d)
      ++ "}".

(** ['\\x{:02x}'] for a character code below 256. *)
Definition x_escape (c : ascii) : string :=
  String backslash
    (String "x" (String (hex_digit (N_of_ascii c / 16))
      (String (hex_digit (N_of_ascii c mod 16)) EmptyString))).

Definition repr_char (quote c : ascii) : string :=
  if Ascii.eqb c quote then String backslash (String c EmptyString)
  else if Ascii.eqb c backslash then String backslash (String backslash EmptyString)
  else if Ascii.eqb c newline then String backslash "n"
  else if Ascii.eqb c "013"%char then String backslash "r"
  else if Ascii.eqb c "009"%char then String backslash "t"
  else if in_range " " "~" c then String c EmptyString
  else x_escape c.

Fixpoint repr_body (quote : ascii) (s : string) : string :=
  match s with
  | EmptyString => EmptyString
  | String c s' => repr_char quote c ++ repr_body quote s'
  end.

(** [repr(s)]: single quotes, unless [s] holds one and no double quote. *)
Definition repr (s : string) : string :=
  let quote := if char_in squote s && negb (char_in dquote s) then dquote else squote in
  String quote (repr_body quote s ++ String quote EmptyString).

(** [str(d)] of a dict. *)
Definition str_dict (d : dict) : string :=
  "{" ++ join ", " (map (fun kv => repr (fst kv) ++ ": " ++ repr (snd kv)) d) ++ "}".

End Py.

(** ** Python regular expressions

    The fragment of [re] the script uses, with the backtracking semantics of
    the library: alternatives are tried left to right, repetition is greedy,
    [.] matches anything but a newline, [^] matches at the start of the
    string and [$] at its end or just before a newline that ends it. *)

Module Re.

Import Py.

Inductive regex : Type :=
| Eps
| Chr (c : ascii)
| Rng (lo hi : ascii)
| Dot
| Bol
| Eol
| Seq (r1 r2 : regex)
| Alt (r1 r2 : regex)
| Star (r : regex)
| Grp (n : nat) (r : regex).

(** [r+] *)
Definition Plus (r : regex) : regex := Seq r (Star r).

(** A literal piece of the pattern. *)
Fixpoint Lit (s : string) : regex :=
  match s with
  | EmptyString => Eps
  | String c s' => Seq (Chr c) (Lit s')
  end.

(** [(?:a|b|...)] *)
Fixpoint Alts (l : list regex) : regex :=
  match l with
  | [] => Eps
  | [r] => r
  | r :: l' => Alt r (Alts l')
  end.

Definition captures := list (nat * string).

(** The matcher's position: offset in the subject, what is left of it, and
    the groups closed so far (the latest first). *)
Record mstate := MState { pos : nat; rest : string; caps : captures }.

Definition advance (st : mstate) (s' : string) : mstate :=
  MState (S (pos st)) s' (caps st).

Definition one_char (p : ascii -> bool) (st : mstate)
    (k : mstate -> option captures) : option captures :=
  match rest st with
  | String x s' => if p x then k (advance st s') else None
  | EmptyString => None
  end.

Definition at_end (s : string) : bool :=
  match s with
  | EmptyString => true
  | String x EmptyString => Ascii.eqb x newline
  | _ => false
  end.

Definition close_group (n : nat) (st st' : mstate) : mstate :=
  MState (pos st') (rest st')
         ((n, substring 0 (pos st' - pos st) (rest st)) :: caps st').

(** [m r st k]: match [r] at [st], then go on with [k]; the first way of
    matching [r] that [k] accepts wins. *)
Fixpoint m (r : regex) (st : mstate) (k : mstate -> option captures)
    {struct r} : option captures :=
  match r with
  | Eps => k st
  | Chr c => one_char (Ascii.eqb c) st k
  | Rng lo hi => one_char (in_range lo hi) st k
  | Dot => one_char (fun x => negb (Ascii.eqb x newline)) st k
  | Bol => if (pos st =? 0)%nat then k st else None
  | Eol => if at_end (rest st) then k st else None
  | Seq r1 r2 => m r1 st (fun st' => m r2 st' k)
  | Alt r1 r2 =>
      match m r1 st k with
      | Some c => Some c
      | None => m r2 st k
      end
  | Star r1 =>
      (fix loop (fuel : nat) (st : mstate) {struct fuel} : option captures :=
         match fuel with
         | O => k st
         | S fuel' =>
             match m r1 st (fun st' =>
                     if (String.length (rest st') <? String.length (rest st))%nat
                     then loop fuel' st' else None) with
             | Some c => Some c
             | None => k st
             end
         end) (String.length (rest st)) st
  | Grp n r1 => m r1 st (fun st' => k (close_group n st st'))
  end.

Definition accept (st : mstate) : option captures := Some (caps st).

(** [pattern.match(s)]: a match at the start of [s] only. *)
Definition re_match (r : regex) (s : string) : option captures :=
  m r (MState 0 s []) accept.

(** [pattern.search(s)]: the leftmost match. *)
Fixpoint search_from (r : regex) (p : nat) (s : string) : option captures :=
  match m r (MState p s []) accept with
  | Some c => Some c
  | None =>
      match s with
      | EmptyString => None
      | String _ s' => search_from r (S p) s'
      end
  end.

Definition search (r : regex) (s : string) : option captures :=
  search_from r 0 s.

Fixpoint group_lookup (c : captures) (n : nat) : option string :=
  match c with
  | [] => None
  | (i, s) :: c' => if (i =? n)%nat then Some s else group_lookup c' n
  end.

(** [str(match.group(n))]: a group that took no part reads "None". *)
Definition str_group (c : captures) (n : nat) : string :=
  match group_lookup c n with
  | Some s => s
  | None => "None"
  end.

End Re.

(** ** The outside world *)

Import Py Re.

(** What the program does to its surroundings, in the order it does it. *)
Inductive effect : Type :=
| Print (s : string)
| Run (argv : list string)
| Popen (argv : list string)
| Subscribe (topic : string)
| Publish (topic payload : string) (retain : bool).

Inductive exn : Type :=
| NameError (name : string)
| IndexError.

Inductive result (A : Type) : Type :=
| Ok (a : A)
| Raise (e : exn).
Arguments Ok {A} a.
Arguments Raise {A} e.

(** The global [rcvihc] and the record of everything done so far. *)
Record world : Type := World { rcvihc : string; log : list effect }.

(** A computation reads and changes the world and returns or raises. *)
Definition M (A : Type) : Type := world -> result A * world.

Definition ret {A : Type} (a : A) : M A := fun w => (Ok a, w).

Definition bind {A B : Type} (c : M A) (f : A -> M B) : M B :=
  fun w =>
    match c w with
    | (Ok a, w') => f a w'
    | (Raise e, w') => (Raise e, w')
    end.

Definition raise {A : Type} (e : exn) : M A := fun w => (Raise e, w).

Declare Scope gateway_scope.
Delimit Scope gateway_scope with gw.
Notation "x <- c ;; k" := (bind c (fun x => k))
  (at level 61, c at next level, right associativity) : gateway_scope.
Notation "c ;; k" := (bind c (fun _ => k))
  (at level 61, right associativity) : gateway_scope.
Local Open Scope gateway_scope.

Definition emit (e : effect) : M unit :=
  fun w => (Ok tt, World (rcvihc w) (log w ++ [e])).

Definition print (s : string) : M unit := emit (Print s).
Definition subscribe (topic : string) : M unit := emit (Subscribe topic).
Definition publish (topic payload : string) (retain : bool) : M unit :=
  emit (Publish topic payload retain).

Definition get_rcvihc : M string := fun w => (Ok (rcvihc w), w).
Definition set_rcvihc (s : string) : M unit := fun w => (Ok tt, World s (log w)).

(** [for x in l: body(x)] *)
Fixpoint for_each {A : Type} (l : list A) (body : A -> M unit) : M unit :=
  match l with
  | [] => ret tt
  | x :: l' => body x ;; for_each l' body
  end.

(** [l[i]] *)
Definition index {A : Type} (l : list A) (i : nat) : M A :=
  match nth_error l i with
  | Some x => ret x
  | None => raise IndexError
  end.

(** What a generator still has to do: yield a line and go on, end, or
    raise. *)
Inductive generator : Type :=
| Yield (line : string) (next : generator)
| Return
| Throw (e : exn).

(** [for line in g: body(line)] *)
Fixpoint for_in (g : generator) (body : string -> M unit) : M unit :=
  match g with
  | Yield line next => body line ;; for_in next body
  | Return => ret tt
  | Throw e => raise e
  end.

(** [iter(readline, EmptyString)]: the lines read, up to the first empty
    one, which is what [readline] returns at the end of the output. *)
Fixpoint iter_readline (lines : list string) (after : generator) : generator :=
  match lines with
  | [] => after
  | line :: lines' =>
      if truthy line then Yield line (iter_readline lines' after) else after
  end.

(** The [heyu monitor] process as the program sees it: the lines it writes
    before it ends and the code it ends with. *)
Record process : Type := Process { stdout : list string; wait : Z }.

(** The effects of a log that are controller runs, and those that are
    publishes. *)
Fixpoint invocations (l : list effect) : list (list string) :=
  match l with
  | [] => []
  | Run argv :: l' => argv :: invocations l'
  | _ :: l' => invocations l'
  end.

Fixpoint publishes (l : list effect) : list (string * string * bool) :=
  match l with
  | [] => []
  | Publish t p r :: l' => (t, p, r) :: publishes l'
  | _ :: l' => publishes l'
  end.

Fixpoint prints (l : list effect) : list string :=
  match l with
  | [] => []
  | Print s :: l' => s :: prints l'
  | _ :: l' => prints l'
  end.

Fixpoint spawns (l : list effect) : list (list string) :=
  match l with
  | [] => []
  | Popen argv :: l' => argv :: spawns l'
  | _ :: l' => spawns l'
  end.

(** What running [c] from [w] adds to the log. *)
Definition effects_of {A : Type} (c : M A) (w : world) : list effect :=
  skipn (length (log w)) (log (snd (c w))).

(** ** Configuration (lines 61 to 101) *)

Record config : Type := Config {
  cmdtopic : string;
  stattopic : string;
  discoveryhouses : list string;
  discoverytopic : string;
  cm17 : bool
}.

Definition environ_get (environ : string -> option string) (key default : string)
    : string :=
  match environ key with
  | Some v => v
  | None => default
  end.

(** [[h for h in v.upper() if h in "ABCDEFGHIJKLMNOP"]] *)
Definition discovery_letters (v : string) : list string :=
  map (fun h => String h EmptyString)
      (filter (fun h => char_in h "ABCDEFGHIJKLMNOP") (list_ascii_of_string (upper v))).

Definition load_config (environ : string -> option string) : config :=
  {| cmdtopic := environ_get environ "CMD_TOPIC" "x10/cmd";
     stattopic := environ_get environ "STAT_TOPIC" "x10/stat";
     discoveryhouses :=
       discovery_letters (environ_get environ "DISCOVERY_HOUSECODES" EmptyString);
     discoverytopic := environ_get environ "DISCOVERY_TOPIC" "homeassistant";
     cm17 := match environ "USE_CM17" with
             | Some v => String.eqb v "true"
             | None => false
             end |}.

(** ** The patterns (lines 214, 274 and 275) *)

Definition hcpattern : regex :=
  Seq Bol (Seq (Rng "A" "P") (Seq (Plus (Rng "0" "9")) Eol)).

Definition monitor_prefix : regex :=
  Alts (map Lit ["rcvi"; "rcvt"; "sndc"; "snds"; "sndm"; "sndt"]).

Definition rercviaddr : regex :=
  Seq monitor_prefix
    (Seq (Lit " addr unit")
      (Seq (Plus Dot)
        (Seq (Lit "hu ") (Grp 1 (Seq (Rng "A" "P") (Plus (Rng "0" "9"))))))).

Definition rercvifunc : regex :=
  Seq monitor_prefix
    (Seq (Lit " func")
      (Seq (Star Dot)
        (Seq (Grp 1 (Alt (Lit "On") (Lit "Off"))) (Lit " :")))).

(** ** The gateway *)

Record message : Type := Message { topic : string; payload : string }.

Section Gateway.

(** The configuration read at start-up, and the exit code of a [heyu] run,
    which may depend on everything that happened before it. *)
Variable cfg : config.
Variable heyu : list effect -> list string -> Z.

(** [subprocess.run(argv).returncode] *)
Definition subprocess_run (argv : list string) : M Z :=
  fun w => (Ok (heyu (log w) argv), World (rcvihc w) (log w ++ [Run argv])).

Definition execute (cmd housecode : string) : M Z :=
  let heyucmd := cmd in
  let heyucmd :=
    if cm17 cfg then
      let heyucmd := if lower cmd =? "on" then "fon" else heyucmd in
      if lower cmd =? "off" then "foff" else heyucmd
    else heyucmd in
  returncode <- subprocess_run ["heyu"; lower heyucmd; lower housecode] ;;
  (if (returncode =? 0)%Z then ret tt
   else print ("Error running heyu, return code: " ++ str_int returncode)) ;;
  print ("Device Status Update: " ++ stattopic cfg ++ "/" ++ lower housecode) ;;
  publish (stattopic cfg ++ "/" ++ lower housecode) (upper cmd) true ;;
  ret returncode.

Definition monitor (p : process) : M generator :=
  emit (Popen ["heyu"; "monitor"]) ;;
  ret (iter_readline (stdout p)
         (let return_code := wait p in
          if (return_code =? 0)%Z then Return else Throw (NameError "cmd"))).

Definition rcviaddr (housecode : string) : M unit :=
  set_rcvihc housecode.

Definition rcvifunc (func : string) : M unit :=
  hc <- get_rcvihc ;;
  if truthy hc then
    print ("Remote status change, publishing stat update: " ++ stattopic cfg ++ "/"
             ++ lower hc ++ " is now " ++ upper func) ;;
    publish (stattopic cfg ++ "/" ++ lower hc) (upper func) true ;;
    set_rcvihc EmptyString
  else ret tt.

Definition ha_discovery_config (house : string) (unit : nat) : dict :=
  [ ("name", "X10 Module " ++ upper house ++ str_nat unit);
    ("state_topic", stattopic cfg ++ "/" ++ lower house ++ str_nat unit);
    ("command_topic", cmdtopic cfg ++ "/" ++ lower house ++ str_nat unit);
    ("unique_id", "x10mqtt_x10_" ++ lower house ++ str_nat unit) ].

Definition ha_discovery_topic (house : string) (unit : nat) : string :=
  discoverytopic cfg ++ "/switch/x10mqtt/x10_" ++ lower house ++ str_nat unit ++ "/config".

Definition ha_discovery_announce (house : string) (unit : nat) : M Datatypes.unit :=
  let config := ha_discovery_config house unit in
  let topic := ha_discovery_topic house unit in
  print ("Publishing at " ++ topic ++ ": " ++ str_dict config) ;;
  publish topic (json_dumps config) true.

Definition on_connect (rc : Z) : M unit :=
  (if (rc =? 0)%Z then ret tt
   else print ("Error connecting to MQTT broker rc " ++ str_int rc)) ;;
  print ("Connected to MQTT broker, result code " ++ str_int rc) ;;
  subscribe (cmdtopic cfg ++ "/+") ;;
  for_each (discoveryhouses cfg) (fun house =>
    print ("Announcing housecode " ++ house ++ " for HomeAssistant discovery") ;;
    for_each (seq 1 16) (fun unit => ha_discovery_announce house unit)).

Definition on_message (msg : message) : M unit :=
  let command := upper (payload msg) in
  print ("Received: " ++ topic msg ++ " " ++ command) ;;
  let topiclist := split "/" (topic msg) in
  seg <- index topiclist (length topiclist - 1) ;;
  let hc := upper seg in
  if str_in command ["ON"; "OFF"]
     && match re_match hcpattern hc with Some _ => true | None => false end
  then
    print ("Sending X10 command to homecode " ++ hc) ;;
    result <- execute command hc ;;
    ret tt
  else print "Invalid command or home code".

(** The body of the main loop (lines 282 to 287). *)
Definition handle_line (line : string) : M unit :=
  let addrsearch := search rercviaddr line in
  let funcsearch := search rercvifunc line in
  match addrsearch with
  | Some c => rcviaddr (str_group c 1)
  | None => ret tt
  end ;;
  match funcsearch with
  | Some c => rcvifunc (str_group c 1)
  | None => ret tt
  end.

(** The main loop: [for line in monitor(): ...]. *)
Definition main_loop (p : process) : M unit :=
  g <- monitor p ;;
  for_in g handle_line.

End Gateway.

(** A world in which nothing has happened yet. *)
Definition initial : world := World EmptyString [].

(** ** The housecode grammar of the specification

    [[A-P][0-9]+]: one letter from A to P followed by one or more decimal
    digits, and nothing else. *)

Fixpoint all_chars (p : ascii -> bool) (s : string) : bool :=
  match s with
  | EmptyString => true
  | String c s' => p c && all_chars p s'
  end.

Definition housecode_grammar (s : string) : bool :=
  match s with
  | EmptyString => false
  | String c ds => in_range "A" "P" c && truthy ds && all_chars (in_range "0" "9") ds
  end.

(** The action word the specification gives for a command in each hardware
    mode: the command itself, or the command with an F before it. *)
Definition mode_action (alternate : bool) (command : string) : string :=
  if alternate then String "F" command else command.

(** ** Vocabulary of the proofs *)

(** A computation that only adds [es] to the log, whatever the world. *)
Definition writes (c : M unit) (es : list effect) : Prop :=
  forall w, c w = (Ok tt, World (rcvihc w) (log w ++ es)).


(** The loop that [m] runs for [Star r1], under a name. *)
Definition star_loop (r1 : regex) (k : mstate -> option captures)
    : nat -> mstate -> option captures :=
  fix loop (fuel : nat) (st : mstate) {struct fuel} : option captures :=
    match fuel with
    | O => k st
    | S fuel' =>
        match m r1 st (fun st' =>
                if (String.length (rest st') <? String.length (rest st))%nat
                then loop fuel' st' else None) with
        | Some c => Some c
        | None => k st
        end
    end.

(** The housecode an address line declares and the function a function line
    reports, as the main loop reads them off a line. *)
Definition addr_of (line : string) : option string :=
  option_map (fun c => str_group c 1) (search rercviaddr line).

Definition func_of (line : string) : option string :=
  option_map (fun c => str_group c 1) (search rercvifunc line).

(** What one line does to the pending housecode, and the events (housecode,
    function) it gives rise to: the two tests of the main loop, read as a
    transition of the pending-address slot. *)
Definition line_step (slot line : string) : string * list (string * string) :=
  let slot1 := match addr_of line with Some a => a | None => slot end in
  match func_of line with
  | Some f => if truthy slot1 then (EmptyString, [(slot1, f)]) else (slot1, [])
  | None => (slot1, [])
  end.

Fixpoint lines_run (slot : string) (lines : list string)
    : string * list (string * string) :=
  match lines with
  | [] => (slot, [])
  | line :: lines' =>
      let (slot1, es1) := line_step slot line in
      let (slot2, es2) := lines_run slot1 lines' in
      (slot2, es1 ++ es2)%list
  end.

(** What [rcvifunc] prints and publishes for an event. *)
Definition event_effects (cfg : config) (e : string * string) : list effect :=
  [ Print ("Remote status change, publishing stat update: " ++ stattopic cfg ++ "/"
             ++ lower (fst e) ++ " is now " ++ upper (snd e));
    Publish (stattopic cfg ++ "/" ++ lower (fst e)) (upper (snd e)) true ].

(** The lines a generator built by [iter_readline] yields. *)
Fixpoint yielded (lines : list string) : list string :=
  match lines with
  | [] => []
  | line :: lines' => if truthy line then line :: yielded lines' else []
  end.

(** A line that is neither an address line nor a function line. *)
Definition neither (line : string) : Prop :=
  addr_of line = None /\ func_of line = None.

(** The event (a, f) comes from an address line for [a] followed, with
    nothing but other output in between, by a function line for [f] - or
    from one line that holds both. *)
Inductive paired (a f : string) (lines : list string) : Prop :=
| paired_lines (pre mid post : list string) (la lf : string) :
    lines = (pre ++ la :: mid ++ lf :: post)%list ->
    addr_of la = Some a -> func_of la = None ->
    Forall neither mid ->
    addr_of lf = None -> func_of lf = Some f ->
    paired a f lines
| paired_line (pre post : list string) (l : string) :
    lines = (pre ++ l :: post)%list ->
    addr_of l = Some a -> func_of l = Some f ->
    paired a f lines.

(** How the monitor generator ends for an exit code of [heyu monitor]. *)
Definition monitor_end (return_code : Z) : result unit :=
  if (return_code =? 0)%Z then Ok tt else Raise (NameError "cmd").

(** The action word [execute] hands to [heyu], before it is lower-cased, and
    the command line it runs. *)
Definition heyucmd_of (cfg : config) (cmd : string) : string :=
  if cm17 cfg then
    if lower cmd =? "off" then "foff"
    else if lower cmd =? "on" then "fon" else cmd
  else cmd.

Definition execute_argv (cfg : config) (cmd housecode : string) : list string :=
  ["heyu"; lower (heyucmd_of cfg cmd); lower housecode].

(** What [execute] adds to the log when [heyu] ends with [returncode]. *)
Definition execute_effects (cfg : config) (cmd housecode : string) (returncode : Z)
    : list effect :=
  (Run (execute_argv cfg cmd housecode)
     :: (if (returncode =? 0)%Z then []
         else [Print ("Error running heyu, return code: " ++ str_int returncode)])
     ++ [ Print ("Device Status Update: " ++ stattopic cfg ++ "/" ++ lower housecode);
          Publish (stattopic cfg ++ "/" ++ lower housecode) (upper cmd) true ])%list.

(** What [ha_discovery_announce] and [on_connect] add to the log. *)
Definition announce_effects (cfg : config) (house : string) (unit : nat) : list effect :=
  [ Print ("Publishing at " ++ ha_discovery_topic cfg house unit ++ ": "
             ++ str_dict (ha_discovery_config cfg house unit));
    Publish (ha_discovery_topic cfg house unit)
            (json_dumps (ha_discovery_config cfg house unit)) true ].

Definition connect_effects (cfg : config) (rc : Z) : list effect :=
  ((if (rc =? 0)%Z then []
    else [Print ("Error connecting to MQTT broker rc " ++ str_int rc)])
   ++ [ Print ("Connected to MQTT broker, result code " ++ str_int rc);
        Subscribe (cmdtopic cfg ++ "/+") ]
   ++ flat_map (fun house =>
        Print ("Announcing housecode " ++ house ++ " for HomeAssistant discovery")
          :: flat_map (announce_effects cfg house) (seq 1 16))
        (discoveryhouses cfg))%list.

(** The discovery message of one unit: topic, payload, retain flag. *)
Definition discovery_message (cfg : config) (hu : string * nat)
    : string * string * bool :=
  (ha_discovery_topic cfg (fst hu) (snd hu),
   json_dumps (ha_discovery_config cfg (fst hu) (snd hu)), true).

(** All strings of a list differ. *)
Fixpoint distinctb (l : list string) : bool :=
  match l with
  | [] => true
  | x :: l' => negb (str_in x l') && distinctb l'
  end.

(** ** Sample inputs *)

Definition default_config : config := load_config (fun _ => None).

(** The configuration with [DISCOVERY_HOUSECODES=AB]. *)
Definition ab_config : config :=
  load_config (fun key => if key =? "DISCOVERY_HOUSECODES" then Some "AB" else None).

(** The configuration with [USE_CM17=true]. *)
Definition cm17_config : config :=
  load_config (fun key => if key =? "USE_CM17" then Some "true" else None).

Definition nl : string := String newline EmptyString.

(** Lines as [heyu monitor] prints them. *)
Definition sample_addr_a1 : string :=
  "07/30 12:34:56  rcvi addr unit       1 : hu A1  (_no_alias_)" ++ nl.
Definition sample_addr_b2 : string :=
  "07/30 12:34:57  rcvi addr unit       2 : hu B2  (_no_alias_)" ++ nl.
Definition sample_func_on : string :=
  "07/30 12:34:58  rcvi func           On : hc A" ++ nl.
Definition sample_func_off : string :=
  "07/30 12:34:59  rcvi func          Off : hc B" ++ nl.

(** A line that holds an address declaration and a function report. *)
Definition sample_both : string :=
  "rcvi addr unit 1 : hu A1 rcvi func On :" ++ nl.

(** A [heyu] that always succeeds, and one that always fails with code 1. *)
Definition heyu_ok : list effect -> list string -> Z := fun _ _ => 0%Z.
Definition heyu_fails : list effect -> list string -> Z := fun _ _ => 1%Z.

(** ** Start-up (lines 28 to 48 and 243 to 267)

    What the main thread does before it enters the main loop.  The
    callbacks run on the thread that [loop_start] creates; here is the main
    thread alone. *)

Inductive startup_action : Type :=
| Say (s : string)
| UsernamePwSet (username password : string)
| Connect (host : string) (port : Z)
| LoopStart.

Inductive startup_outcome : Type :=
| Exit (code : Z)
| Monitoring.

Section Startup.

(** The built-in [int] on text ([None] when it raises), the environment, and
    whether [client.connect] returns rather than raises. *)
Variable py_int : string -> option Z.
Variable environ : string -> option string.
Variable connects : string -> Z -> bool.

Definition startup : list startup_action * startup_outcome :=
  match environ "MQTT_HOST" with
  | None => ([Say "Must define MQTT Host in configuration!"], Exit 1)
  | Some broker =>
      match match environ "MQTT_PORT" with
            | Some v => py_int v
            | None => None
            end with
      | None => ([Say "Must define MQTT port in configuration!"], Exit 1)
      | Some port =>
          let mqttuser := environ_get environ "MQTT_USER" EmptyString in
          let mqttpass := environ_get environ "MQTT_PASSWORD" EmptyString in
          let establishing :=
            [Say ("Establishing MQTT to " ++ broker ++ " port " ++ str_int port ++ "...")] in
          let credentials :=
            if truthy mqttuser && truthy mqttpass
            then [ Say ("(Using MQTT username " ++ mqttuser ++ ")");
                   UsernamePwSet mqttuser mqttpass ]
            else [] in
          if connects broker port then
            ((establishing ++ credentials ++ [Connect broker port]
                ++ (if cm17 (load_config environ) then [Say "CM17 is in use"] else [])
                ++ [ Say "Waiting for MQTT messages and monitoring for remote changes";
                     LoopStart ])%list,
             Monitoring)
          else
            ((establishing ++ credentials
                ++ [ Connect broker port;
                     Say "Connection failed. Make sure broker, port, and user is defined correctly" ])%list,
             Exit 1)
      end
  end.

(** How the main thread ends. *)
Inductive ending : Type :=
| Exited (code : Z)
| Raised (e : exn)
| Finished.

(** The script from its first line to its last, on the main thread: the
    start-up, then the main loop from the initial value of [rcvihc]. *)
Definition program (p : process) : list startup_action * list effect * ending :=
  match startup with
  | (actions, Exit code) => (actions, [], Exited code)
  | (actions, Monitoring) =>
      match main_loop (load_config environ) p initial with
      | (Ok _, w) => (actions, log w, Finished)
      | (Raise e, w) => (actions, log w, Raised e)
      end
  end.

End Startup.

(** ** More vocabulary of the proofs *)

Fixpoint subscriptions (l : list effect) : list string :=
  match l with
  | [] => []
  | Subscribe t :: l' => t :: subscriptions l'
  | _ :: l' => subscriptions l'
  end.

(** A line the main loop does something with. *)
Definition relevant (line : string) : bool :=
  match addr_of line, func_of line with
  | None, None => false
  | _, _ => true
  end.

(** Printable ASCII. *)
Definition printable (c : ascii) : bool := in_range " " "~" c.

(** The check of [on_message] (line 215). *)
Definition accepted (msg : message) : bool :=
  str_in (upper (payload msg)) ["ON"; "OFF"]
  && match re_match hcpattern (upper (last (split "/" (topic msg)) EmptyString)) with
     | Some _ => true
     | None => false
     end.

(** What [on_message] adds to the log. *)
Definition message_effects (cfg : config) (heyu : list effect -> list string -> Z)
    (msg : message) (w : world) : list effect :=
  let command := upper (payload msg) in
  let hc := upper (last (split "/" (topic msg)) EmptyString) in
  let received := Print ("Received: " ++ topic msg ++ " " ++ command) in
  if accepted msg then
    let sending := Print ("Sending X10 command to homecode " ++ hc) in
    received :: sending
      :: execute_effects cfg command hc
           (heyu (log w ++ [received; sending])%list (execute_argv cfg command hc))
  else [received; Print "Invalid command or home code"].

(** The sixteen housecode letters. *)
Definition house_letters : list string :=
  ["A"; "B"; "C"; "D"; "E"; "F"; "G"; "H"; "I"; "J"; "K"; "L"; "M"; "N"; "O"; "P"].

(** A plain decimal reading of a port number, to run the start-up with. *)
Definition decimal_port (s : string) : option Z :=
  match NilEmpty.uint_of_string s with
  | Some u => match s with
              | EmptyString => None
              | _ => Some (Z.of_nat (Nat.of_uint u))
              end
  | None => None
  end.

(** The connections a start-up attempts, the credentials it sets, and
    whether it starts the network loop. *)
Fixpoint connections (l : list startup_action) : list (string * Z) :=
  match l with
  | [] => []
  | Connect host port :: l' => (host, port) :: connections l'
  | _ :: l' => connections l'
  end.

Fixpoint credentials_set (l : list startup_action) : list (string * string) :=
  match l with
  | [] => []
  | UsernamePwSet u p :: l' => (u, p) :: credentials_set l'
  | _ :: l' => credentials_set l'
  end.

Fixpoint loop_started (l : list startup_action) : bool :=
  match l with
  | [] => false
  | LoopStart :: _ => true
  | _ :: l' => loop_started l'
  end.

(** The port the environment gives, when it gives one that [int] reads. *)
Definition port_setting (py_int : string -> option Z) (environ : string -> option string)
    : option Z :=
  match environ "MQTT_PORT" with
  | Some v => py_int v
  | None => None
  end.

(** [message.payload.decode('utf-8')] (line 205): the bytes of a payload
    either are UTF-8 and decode to a text, or are not, and then [decode]
    raises before the callback has done anything. *)
Inductive payload_bytes : Type :=
| Utf8 (text : string)
| NotUtf8.

(** How a callback ends. *)
Inductive callback_end : Type :=
| Returns
| RaisesUnicodeDecodeError
| Raises (e : exn).

(** [on_message] from the bytes of the payload on. *)
Definition on_message_bytes (cfg : config) (heyu : list effect -> list string -> Z)
    (topic_ : string) (payload_ : payload_bytes) (w : world) : callback_end * world :=
  match payload_ with
  | NotUtf8 => (RaisesUnicodeDecodeError, w)
  | Utf8 text =>
      match on_message cfg heyu (Message topic_ text) w with
      | (Ok _, w') => (Returns, w')
      | (Raise e, w') => (Raises e, w')
      end
  end.

(** A character of ASCII. *)
Definition is_ascii (c : ascii) : bool := (N_of_ascii c <? 128)%N.
(** * Lemmas *)

(** ** The log *)

Lemma effects_of_log {A : Type} (c : M A) (w : world) (es : list effect) :
  log (snd (c w)) = (log w ++ es)%list -> effects_of c w = es.
Proof.
  unfold effects_of. intros ->.
  rewrite skipn_app, skipn_all, Nat.sub_diag. reflexivity.
Qed.

Lemma writes_ret : writes (ret tt) [].
Proof. intros [hc l]. unfold ret. simpl. rewrite app_nil_r. reflexivity. Qed.

Lemma writes_emit e : writes (emit e) [e].
Proof. intros w. reflexivity. Qed.

Lemma writes_bind c1 c2 es1 es2 :
  writes c1 es1 -> writes c2 es2 -> writes (c1 ;; c2) (es1 ++ es2)%list.
Proof.
  intros H1 H2 w. unfold bind. rewrite H1, H2. simpl.
  rewrite app_assoc. reflexivity.
Qed.

Lemma writes_for_each {A : Type} (l : list A) (body : A -> M unit)
    (f : A -> list effect) :
  (forall x, writes (body x) (f x)) -> writes (for_each l body) (flat_map f l).
Proof.
  intros Hb. induction l as [|x l IH]; simpl.
  - apply writes_ret.
  - apply writes_bind; [apply Hb | exact IH].
Qed.

Lemma writes_effects c es w : writes c es -> effects_of c w = es.
Proof. intros H. apply effects_of_log. rewrite H. reflexivity. Qed.

Lemma invocations_app l1 l2 :
  invocations (l1 ++ l2) = (invocations l1 ++ invocations l2)%list.
Proof.
  induction l1 as [|e l1 IH]; simpl; [reflexivity|].
  destruct e; simpl; rewrite IH; reflexivity.
Qed.

Lemma publishes_app l1 l2 :
  publishes (l1 ++ l2) = (publishes l1 ++ publishes l2)%list.
Proof.
  induction l1 as [|e l1 IH]; simpl; [reflexivity|].
  destruct e; simpl; rewrite IH; reflexivity.
Qed.

(** ** Characters and strings *)

Lemma in_range_spec lo hi c :
  in_range lo hi c = true <->
  (N_of_ascii lo <= N_of_ascii c /\ N_of_ascii c <= N_of_ascii hi)%N.
Proof.
  unfold in_range. rewrite andb_true_iff, !N.leb_le. reflexivity.
Qed.

Lemma in_range_false lo hi c :
  (N_of_ascii c < N_of_ascii lo \/ N_of_ascii hi < N_of_ascii c)%N ->
  in_range lo hi c = false.
Proof.
  intros H. destruct (in_range lo hi c) eqn:E; [|reflexivity].
  apply in_range_spec in E. lia.
Qed.

Lemma upper_char_letter c : in_range "A" "P" c = true -> upper_char c = c.
Proof.
  intros H. apply in_range_spec in H. simpl in H.
  unfold upper_char. rewrite in_range_false; [reflexivity|]. simpl. lia.
Qed.

Lemma upper_char_digit c : in_range "0" "9" c = true -> upper_char c = c.
Proof.
  intros H. apply in_range_spec in H. simpl in H.
  unfold upper_char. rewrite in_range_false; [reflexivity|]. simpl. lia.
Qed.

Lemma upper_digits ds : all_chars (in_range "0" "9") ds = true -> upper ds = ds.
Proof.
  induction ds as [|d ds IH]; simpl; [reflexivity|].
  rewrite andb_true_iff. intros [Hd Hds].
  unfold upper in *. simpl. rewrite upper_char_digit, IH by assumption. reflexivity.
Qed.

Lemma upper_housecode s : housecode_grammar s = true -> upper s = s.
Proof.
  destruct s as [|c ds]; simpl; [discriminate|].
  rewrite !andb_true_iff. intros [[Hc _] Hds].
  unfold upper. simpl. rewrite upper_char_letter by assumption.
  f_equal. apply upper_digits. exact Hds.
Qed.

Lemma not_slash_letter c : in_range "A" "P" c = true -> Ascii.eqb "/" c = false.
Proof.
  intros H. apply in_range_spec in H. simpl in H.
  apply Ascii.eqb_neq. intros <-. simpl in H. lia.
Qed.

Lemma not_slash_digit c : in_range "0" "9" c = true -> Ascii.eqb "/" c = false.
Proof.
  intros H. apply in_range_spec in H. simpl in H.
  apply Ascii.eqb_neq. intros <-. simpl in H. lia.
Qed.

Lemma no_slash_digits ds :
  all_chars (in_range "0" "9") ds = true -> char_in "/" ds = false.
Proof.
  induction ds as [|d ds IH]; cbn [char_in all_chars]; [reflexivity|].
  rewrite andb_true_iff. intros [Hd Hds].
  rewrite not_slash_digit, IH by assumption. reflexivity.
Qed.

Lemma no_slash_housecode s : housecode_grammar s = true -> char_in "/" s = false.
Proof.
  destruct s as [|c ds]; cbn [char_in housecode_grammar]; [discriminate|].
  rewrite !andb_true_iff. intros [[Hc _] Hds].
  rewrite not_slash_letter, no_slash_digits by assumption. reflexivity.
Qed.

(** ** [split] *)

Lemma split_not_nil sep s : split sep s <> [].
Proof.
  destruct s as [|c s]; simpl; [discriminate|].
  destruct (Ascii.eqb c sep); [discriminate|].
  destruct (split sep s); discriminate.
Qed.

Lemma split_no_sep sep s : char_in sep s = false -> split sep s = [s].
Proof.
  induction s as [|c s IH]; cbn [char_in split]; [reflexivity|].
  rewrite orb_false_iff. intros [Hc Hs].
  rewrite Ascii.eqb_sym, Hc, IH by assumption. reflexivity.
Qed.

Lemma split_app sep p q :
  split sep (p ++ String sep q) = (split sep p ++ split sep q)%list.
Proof.
  induction p as [|c p IH]; cbn [split append].
  - rewrite Ascii.eqb_refl. reflexivity.
  - destruct (Ascii.eqb c sep); rewrite IH; [reflexivity|].
    destruct (split sep p) as [|h t] eqn:E; [|reflexivity].
    exfalso. exact (split_not_nil _ _ E).
Qed.

(** The last segment of [prefix/h] is [h] when [h] holds no slash. *)
Lemma index_last_segment p h :
  char_in "/" h = false ->
  let topiclist := split "/" (p ++ String "/" h) in
  index topiclist (length topiclist - 1) = ret h.
Proof.
  intros Hh. simpl. rewrite split_app, (split_no_sep _ h Hh).
  unfold index. rewrite length_app. simpl.
  rewrite nth_error_app2 by lia.
  replace (length (split "/" p) + 1 - 1 - length (split "/" p)) with 0 by lia.
  reflexivity.
Qed.

(** The index [len(topiclist)-1] is always in range. *)
Lemma index_last_total s :
  let topiclist := split "/" s in
  exists seg, index topiclist (length topiclist - 1) = ret seg
              /\ seg = last topiclist EmptyString.
Proof.
  simpl. pose proof (split_not_nil "/" s) as Hne.
  destruct (exists_last Hne) as [l [x E]]. rewrite E.
  exists x. unfold index. rewrite length_app. simpl.
  rewrite nth_error_app2 by lia.
  replace (length l + 1 - 1 - length l) with 0 by lia.
  split; [reflexivity|]. rewrite last_last. reflexivity.
Qed.

(** ** The matcher *)

Lemma m_star r st k : m (Star r) st k = star_loop r k (String.length (rest st)) st.
Proof. reflexivity. Qed.

Lemma m_seq r1 r2 st k : m (Seq r1 r2) st k = m r1 st (fun st' => m r2 st' k).
Proof. reflexivity. Qed.

Lemma m_grp n r st k : m (Grp n r) st k = m r st (fun st' => k (close_group n st st')).
Proof. reflexivity. Qed.

Lemma m_alt r1 r2 st k :
  m (Alt r1 r2) st k = match m r1 st k with Some c => Some c | None => m r2 st k end.
Proof. reflexivity. Qed.

(** Whatever [m] returns, its continuation returned, further on in the
    subject. *)
Lemma m_continues r : forall st k c,
  m r st k = Some c -> exists st', k st' = Some c /\ pos st <= pos st'.
Proof.
  induction r as [ | x | lo hi | | | | r1 IH1 r2 IH2 | r1 IH1 r2 IH2 | r1 IH1 | n r1 IH1 ];
    intros st k c H; cbn [m] in H.
  - exists st. split; [exact H | lia].
  - unfold one_char in H. destruct (rest st) as [|y s']; [discriminate|].
    destruct (Ascii.eqb x y); [|discriminate].
    eexists. split; [exact H | simpl; lia].
  - unfold one_char in H. destruct (rest st) as [|y s']; [discriminate|].
    destruct (in_range lo hi y); [|discriminate].
    eexists. split; [exact H | simpl; lia].
  - unfold one_char in H. destruct (rest st) as [|y s']; [discriminate|].
    destruct (negb (Ascii.eqb y newline)); [|discriminate].
    eexists. split; [exact H | simpl; lia].
  - destruct (pos st =? 0)%nat; [|discriminate].
    exists st. split; [exact H | lia].
  - destruct (at_end (rest st)); [|discriminate].
    exists st. split; [exact H | lia].
  - apply IH1 in H. destruct H as [st1 [H Hp1]].
    apply IH2 in H. destruct H as [st2 [H Hp2]].
    exists st2. split; [exact H | lia].
  - destruct (m r1 st k) eqn:E.
    + inversion H; subst. apply IH1 in E. exact E.
    + apply IH2 in H. exact H.
  - fold (star_loop r1 k) in H.
    remember (String.length (rest st)) as fuel eqn:Hf. clear Hf.
    revert st H. induction fuel as [|fuel IHf]; intros st H; cbn [star_loop] in H.
    + exists st. split; [exact H | lia].
    + fold (star_loop r1 k) in H.
      destruct (m r1 st _) eqn:E.
      * inversion H; subst. apply IH1 in E. destruct E as [st1 [E Hp1]].
        destruct (String.length (rest st1) <? String.length (rest st))%nat;
          [|discriminate].
        apply IHf in E. destruct E as [st2 [E Hp2]].
        exists st2. split; [exact E | lia].
      * exists st. split; [exact H | lia].
  - apply IH1 in H. destruct H as [st1 [H Hp1]].
    eexists. split; [exact H | simpl; lia].
Qed.

Lemma search_from_inv r : forall s p c,
  search_from r p s = Some c ->
  exists p' s', m r (MState p' s' []) accept = Some c.
Proof.
  induction s as [|x s IH]; intros p c H; cbn [search_from] in H.
  - destruct (m r (MState p EmptyString []) accept) eqn:E; [|discriminate].
    inversion H; subst. eauto.
  - destruct (m r (MState p (String x s) []) accept) eqn:E.
    + inversion H; subst. eauto.
    + eapply IH. exact H.
Qed.

(** ** The housecode pattern *)

Lemma append_empty s : s ++ EmptyString = s.
Proof. induction s as [|a s IH]; cbn [append]; [|rewrite IH]; reflexivity. Qed.

Lemma at_end_inv tl :
  at_end tl = true -> tl = EmptyString \/ tl = String newline EmptyString.
Proof.
  destruct tl as [|x [|y tl]]; cbn [at_end]; intros H; try discriminate; auto.
  apply Ascii.eqb_eq in H. subst. auto.
Qed.

(** The greedy loop over the digits runs to their end and stops there. *)
Lemma digits_loop_accept : forall ds tl fuel p cs,
  all_chars (in_range "0" "9") ds = true ->
  at_end tl = true ->
  String.length ds <= fuel ->
  star_loop (Rng "0" "9") (fun st' => m Eol st' accept) fuel (MState p (ds ++ tl) cs)
  = Some cs.
Proof.
  induction ds as [|d ds IH]; intros tl fuel p cs Hds Htl Hf; cbn [append].
  - destruct fuel as [|fuel]; cbn [star_loop m rest]; [rewrite Htl; reflexivity|].
    destruct (at_end_inv _ Htl) as [-> | ->]; reflexivity.
  - cbn [all_chars] in Hds. apply andb_true_iff in Hds. destruct Hds as [Hd Hds].
    destruct fuel as [|fuel]; [simpl in Hf; lia|].
    cbn [star_loop m rest].
    fold (star_loop (Rng "0" "9") (fun st' => m Eol st' accept)).
    unfold one_char. cbn [rest]. rewrite Hd.
    unfold advance. cbn [rest pos caps String.length].
    rewrite (proj2 (Nat.ltb_lt _ _)) by lia.
    rewrite IH; [reflexivity | assumption | assumption | simpl in Hf; lia].
Qed.

Lemma length_append s t : String.length (s ++ t) = String.length s + String.length t.
Proof. induction s as [|a s IH]; cbn [append String.length]; [|rewrite IH]; reflexivity. Qed.

(** Every string of the grammar matches the pattern, and so does such a
    string with a newline, or nothing, after it. *)
Lemma hcpattern_accepts_tail g tl :
  housecode_grammar g = true -> at_end tl = true ->
  re_match hcpattern (g ++ tl) = Some [].
Proof.
  destruct g as [|c ds]; cbn [housecode_grammar]; [discriminate|].
  rewrite !andb_true_iff. intros [[Hc Hne] Hds] Htl.
  destruct ds as [|d ds]; [discriminate|].
  cbn [all_chars] in Hds. apply andb_true_iff in Hds. destruct Hds as [Hd Hds].
  unfold re_match, hcpattern, Plus. cbn [append m pos Nat.eqb].
  unfold one_char. cbn [rest]. rewrite Hc.
  unfold advance. cbn [rest pos caps]. rewrite Hd.
  fold (star_loop (Rng "0" "9") (fun st' => m Eol st' accept)).
  apply digits_loop_accept; [exact Hds | exact Htl |].
  cbn [rest]. rewrite length_append. lia.
Qed.

Lemma hcpattern_accepts s :
  housecode_grammar s = true -> re_match hcpattern s = Some [].
Proof.
  intros H. rewrite <- (append_empty s). apply hcpattern_accepts_tail; auto.
Qed.

Lemma digits_loop_inv : forall fuel s p cs c,
  star_loop (Rng "0" "9") (fun st' => m Eol st' accept) fuel (MState p s cs) = Some c ->
  exists ds tl, s = ds ++ tl /\ all_chars (in_range "0" "9") ds = true
                /\ at_end tl = true.
Proof.
  induction fuel as [|fuel IH]; intros s p cs c H; cbn [star_loop m rest] in H.
  - destruct (at_end s) eqn:E; [|discriminate].
    exists EmptyString, s. auto.
  - fold (star_loop (Rng "0" "9") (fun st' => m Eol st' accept)) in H.
    unfold one_char in H. cbn [rest] in H.
    destruct s as [|d s].
    + exists EmptyString, EmptyString. auto.
    + destruct (in_range "0" "9" d) eqn:Ed.
      * unfold advance in H. cbn [rest pos caps String.length] in H.
        rewrite (proj2 (Nat.ltb_lt _ _)) in H by lia.
        destruct (star_loop _ _ fuel _) eqn:El.
        -- apply IH in El. destruct El as [ds [tl [-> [Hds Htl]]]].
           exists (String d ds), tl. cbn [all_chars append]. rewrite Ed, Hds. auto.
        -- destruct (at_end (String d s)) eqn:E; [|discriminate].
           exists EmptyString, (String d s). auto.
      * destruct (at_end (String d s)) eqn:E; [|discriminate].
        exists EmptyString, (String d s). auto.
Qed.

(** What the pattern matches: the strings of the grammar, and those strings
    with one newline after them. *)
Lemma hcpattern_match_inv s c :
  re_match hcpattern s = Some c ->
  exists g, housecode_grammar g = true
            /\ (s = g \/ s = g ++ String newline EmptyString).
Proof.
  unfold re_match, hcpattern, Plus. cbn [m pos Nat.eqb].
  unfold one_char. cbn [rest].
  destruct s as [|x s]; [discriminate|].
  destruct (in_range "A" "P" x) eqn:Ex; [|discriminate].
  unfold advance. cbn [rest pos caps].
  destruct s as [|d s]; [discriminate|].
  destruct (in_range "0" "9" d) eqn:Ed; [|discriminate].
  fold (star_loop (Rng "0" "9") (fun st' => m Eol st' accept)).
  intros H. apply digits_loop_inv in H. destruct H as [ds [tl [-> [Hds Htl]]]].
  exists (String x (String d ds)). split.
  - cbn [housecode_grammar all_chars truthy]. rewrite Ex, Ed, Hds. reflexivity.
  - destruct (at_end_inv _ Htl) as [-> | ->]; [left | right]; cbn [append].
    + rewrite append_empty. reflexivity.
    + reflexivity.
Qed.

(** ** The monitor patterns *)

(** One step into a sequence: what is left to match after its head. *)
Ltac peel H :=
  rewrite m_seq in H; apply m_continues in H;
  let st := fresh "st" in destruct H as [st [H _]]; cbv beta in H.

(** An address line always declares a housecode that is not empty. *)
Lemma rercviaddr_group line c :
  search rercviaddr line = Some c -> truthy (str_group c 1) = true.
Proof.
  intros H. apply search_from_inv in H. destruct H as [p [s H]].
  unfold rercviaddr in H. peel H. peel H. peel H. peel H.
  rename st2 into st4. rewrite m_grp, m_seq in H. cbn [m] in H.
  unfold one_char in H.
  destruct (rest st4) as [|x s'] eqn:Er; [discriminate|].
  destruct (in_range "A" "P" x); [|discriminate].
  apply m_continues in H. destruct H as [st5 [H Hp]].
  unfold accept, close_group in H. cbn [caps] in H. inversion H; subst c.
  unfold str_group. cbn [group_lookup Nat.eqb]. rewrite Er.
  unfold advance in Hp. cbn [pos] in Hp.
  destruct (pos st5 - pos st4) as [|n] eqn:En; [lia|].
  reflexivity.
Qed.

Lemma addr_of_truthy line a : addr_of line = Some a -> truthy a = true.
Proof.
  unfold addr_of. destruct (search rercviaddr line) as [c|] eqn:E; [|discriminate].
  cbn [option_map]. intros H. inversion H; subst. eapply rercviaddr_group. exact E.
Qed.

(** A literal matches itself and nothing else, and closes no group. *)
Lemma m_lit s : forall st k c,
  m (Lit s) st k = Some c ->
  exists s', rest st = s ++ s'
             /\ k (MState (pos st + String.length s) s' (caps st)) = Some c.
Proof.
  induction s as [|x s IH]; intros [p r cs] k c H; cbn [Lit m] in H.
  - exists r. cbn [pos rest caps append String.length]. rewrite Nat.add_0_r. auto.
  - unfold one_char in H. cbn [rest] in H. destruct r as [|y r]; [discriminate|].
    destruct (Ascii.eqb x y) eqn:E; [|discriminate].
    apply Ascii.eqb_eq in E. subst y.
    apply IH in H. destruct H as [s' [Hr H]].
    unfold advance in *. cbn [pos rest caps] in *. subst r.
    exists s'. cbn [append String.length]. rewrite <- Nat.add_succ_comm. auto.
Qed.

(** A function line always reports On or Off. *)
Lemma rercvifunc_group line c :
  search rercvifunc line = Some c ->
  str_group c 1 = "On" \/ str_group c 1 = "Off".
Proof.
  intros H. apply search_from_inv in H. destruct H as [p [s H]].
  unfold rercvifunc in H. peel H. peel H. peel H.
  rename st1 into st3. rewrite m_seq, m_grp, m_alt in H.
  assert (G : forall w n s',
             rest st3 = w ++ s' -> n = String.length w ->
             m (Lit " :") (close_group 1 st3 (MState (pos st3 + n) s' (caps st3))) accept
               = Some c ->
             str_group c 1 = w).
  { intros w n s' Hr -> G. apply m_lit in G. destruct G as [s4 [_ G]].
    unfold accept in G. inversion G; subst c. clear G.
    unfold close_group, str_group. cbn [caps pos group_lookup Nat.eqb]. rewrite Hr.
    replace (pos st3 + String.length w - pos st3) with (String.length w) by lia.
    clear. induction w as [|a w IHw]; cbn [append String.length].
    - destruct s'; reflexivity.
    - cbn [substring]. rewrite IHw. reflexivity. }
  destruct (m (Lit "On") st3 _) eqn:E.
  - inversion H; subst. apply m_lit in E. destruct E as [s' [Hr E]].
    left. eapply G; [exact Hr | reflexivity | exact E].
  - apply m_lit in H. destruct H as [s' [Hr H]].
    right. eapply G; [exact Hr | reflexivity | exact H].
Qed.

(** ** The main loop *)

Lemma handle_line_step cfg line w :
  handle_line cfg line w =
  (Ok tt, World (fst (line_step (rcvihc w) line))
                (log w ++ flat_map (event_effects cfg) (snd (line_step (rcvihc w) line)))).
Proof.
  destruct w as [hc l].
  unfold handle_line, line_step, addr_of, func_of.
  destruct (search rercviaddr line) as [ca|];
    destruct (search rercvifunc line) as [cf|]; cbn [option_map];
    unfold rcviaddr, rcvifunc, set_rcvihc, get_rcvihc, print, publish, emit, bind, ret;
    cbn [rcvihc log fst snd].
  - destruct (truthy (str_group ca 1)); cbn [rcvihc log fst snd flat_map event_effects];
      rewrite ?app_nil_r, <- ?app_assoc; reflexivity.
  - cbn [flat_map]. rewrite app_nil_r. reflexivity.
  - destruct (truthy hc); cbn [rcvihc log fst snd flat_map event_effects];
      rewrite ?app_nil_r, <- ?app_assoc; reflexivity.
  - cbn [flat_map]. rewrite app_nil_r. reflexivity.
Qed.

Lemma for_each_handle_line cfg lines : forall w,
  for_each lines (handle_line cfg) w =
  (Ok tt, World (fst (lines_run (rcvihc w) lines))
                (log w ++ flat_map (event_effects cfg) (snd (lines_run (rcvihc w) lines)))).
Proof.
  induction lines as [|line lines IH]; intros w; cbn [for_each lines_run].
  - destruct w as [hc l]. unfold ret. cbn. rewrite app_nil_r. reflexivity.
  - unfold bind. rewrite handle_line_step, IH. cbn [rcvihc log].
    destruct (line_step (rcvihc w) line) as [slot1 es1]. cbn [fst snd].
    destruct (lines_run slot1 lines) as [slot2 es2]. cbn [fst snd].
    rewrite flat_map_app, app_assoc. reflexivity.
Qed.

Lemma for_in_iter_readline cfg lines after : forall w,
  for_in (iter_readline lines after) (handle_line cfg) w =
  (for_each (yielded lines) (handle_line cfg) ;; for_in after (handle_line cfg)) w.
Proof.
  induction lines as [|line lines IH]; intros w; cbn [iter_readline yielded].
  - reflexivity.
  - destruct (truthy line); [|reflexivity].
    cbn [for_in for_each]. unfold bind. rewrite handle_line_step.
    rewrite IH. reflexivity.
Qed.

(** The whole run of the main loop: one [heyu monitor] is started, the lines
    it yields are handled in order, and the loop ends as the generator
    does. *)
Lemma main_loop_run cfg p w :
  main_loop cfg p w =
  (monitor_end (wait p),
   World (fst (lines_run (rcvihc w) (yielded (stdout p))))
         (log w ++ Popen ["heyu"; "monitor"]
            :: flat_map (event_effects cfg)
                 (snd (lines_run (rcvihc w) (yielded (stdout p)))))).
Proof.
  unfold main_loop, monitor. unfold bind at 1 2. cbn [emit ret].
  rewrite for_in_iter_readline. unfold bind. rewrite for_each_handle_line.
  cbn [rcvihc log]. unfold monitor_end.
  destruct (wait p =? 0)%Z; cbn [for_in]; unfold ret, raise;
    rewrite <- app_assoc; reflexivity.
Qed.

Lemma publishes_events cfg es :
  publishes (flat_map (event_effects cfg) es) =
  map (fun e => (stattopic cfg ++ "/" ++ lower (fst e), upper (snd e), true)) es.
Proof.
  induction es as [|e es IH]; cbn [flat_map event_effects map app publishes];
    [|rewrite IH]; reflexivity.
Qed.

Lemma main_loop_publishes cfg p w :
  publishes (effects_of (main_loop cfg p) w) =
  map (fun e => (stattopic cfg ++ "/" ++ lower (fst e), upper (snd e), true))
      (snd (lines_run (rcvihc w) (yielded (stdout p)))).
Proof.
  erewrite effects_of_log by (rewrite main_loop_run; reflexivity).
  cbn [publishes]. apply publishes_events.
Qed.

Lemma yielded_prefix lines : exists rest_, lines = (yielded lines ++ rest_)%list.
Proof.
  induction lines as [|l lines [r IH]]; cbn [yielded].
  - exists []. reflexivity.
  - destruct (truthy l).
    + exists r. cbn [app]. rewrite <- IH. reflexivity.
    + exists (l :: lines). reflexivity.
Qed.

Lemma paired_app a f lines more : paired a f lines -> paired a f (lines ++ more).
Proof.
  intros [pre mid post la lf E Ha Hf Hm Ha' Hf' | pre post l E Ha Hf]; subst.
  - apply (paired_lines a f _ pre mid (post ++ more) la lf); auto.
    rewrite <- app_assoc. cbn [app]. rewrite <- app_assoc. reflexivity.
  - apply (paired_line a f _ pre (post ++ more) l); auto.
    rewrite <- app_assoc. reflexivity.
Qed.

Lemma paired_cons a f line lines : paired a f lines -> paired a f (line :: lines).
Proof.
  intros [pre mid post la lf E Ha Hf Hm Ha' Hf' | pre post l E Ha Hf]; subst.
  - apply (paired_lines a f _ (line :: pre) mid post la lf); auto.
  - apply (paired_line a f _ (line :: pre) post l); auto.
Qed.

(** Every event of a run is paired, or completes the housecode that was
    pending when the run began. *)
Lemma lines_run_paired lines : forall slot a f,
  In (a, f) (snd (lines_run slot lines)) ->
  (truthy slot = true /\ a = slot /\
   exists mid lf post, lines = (mid ++ lf :: post)%list /\ Forall neither mid
                       /\ addr_of lf = None /\ func_of lf = Some f)
  \/ paired a f lines.
Proof.
  induction lines as [|line lines IH]; intros slot a f Hin; cbn [lines_run] in Hin.
  - destruct Hin.
  - unfold line_step in Hin.
    destruct (addr_of line) as [a1|] eqn:Ea; destruct (func_of line) as [f1|] eqn:Ef.
    + destruct (truthy a1) eqn:Et.
      * destruct (lines_run EmptyString lines) as [s2 es2] eqn:Er. cbn [snd app] in Hin.
        destruct Hin as [Hin | Hin].
        -- inversion Hin; subst. right.
           apply (paired_line a f _ [] lines line); auto.
        -- assert (H2 : In (a, f) (snd (lines_run EmptyString lines)))
             by (rewrite Er; exact Hin).
           apply IH in H2. destruct H2 as [[Ht _] | Hp]; [discriminate|].
           right. apply paired_cons. exact Hp.
      * apply addr_of_truthy in Ea. congruence.
    + destruct (lines_run a1 lines) as [s2 es2] eqn:Er. cbn [snd app] in Hin.
      assert (H2 : In (a, f) (snd (lines_run a1 lines))) by (rewrite Er; exact Hin).
      apply IH in H2. destruct H2 as [[Ht [-> [mid [lf [post [-> [Hm [Ha' Hf']]]]]]]] | Hp].
      * right. apply (paired_lines a1 f _ [] mid post line lf); auto.
      * right. apply paired_cons. exact Hp.
    + destruct (truthy slot) eqn:Et.
      * destruct (lines_run EmptyString lines) as [s2 es2] eqn:Er. cbn [snd app] in Hin.
        destruct Hin as [Hin | Hin].
        -- inversion Hin; subst. left. split; [first [exact Et | reflexivity]|].
           split; [reflexivity|].
           exists [], line, lines. auto.
        -- assert (H2 : In (a, f) (snd (lines_run EmptyString lines)))
             by (rewrite Er; exact Hin).
           apply IH in H2. destruct H2 as [[Ht _] | Hp]; [discriminate|].
           right. apply paired_cons. exact Hp.
      * destruct (lines_run slot lines) as [s2 es2] eqn:Er. cbn [snd app] in Hin.
        assert (H2 : In (a, f) (snd (lines_run slot lines))) by (rewrite Er; exact Hin).
        apply IH in H2. destruct H2 as [[Ht _] | Hp]; [congruence|].
        right. apply paired_cons. exact Hp.
    + destruct (lines_run slot lines) as [s2 es2] eqn:Er. cbn [snd app] in Hin.
      assert (H2 : In (a, f) (snd (lines_run slot lines))) by (rewrite Er; exact Hin).
      apply IH in H2.
      destruct H2 as [[Ht [-> [mid [lf [post [-> [Hm [Ha' Hf']]]]]]]] | Hp].
      * left. split; [exact Ht|]. split; [reflexivity|].
        exists (line :: mid), lf, post. repeat split; auto.
        constructor; [split; assumption | exact Hm].
      * right. apply paired_cons. exact Hp.
Qed.

(** ** [execute] and [on_message] *)

Lemma execute_run cfg heyu cmd housecode w :
  let returncode := heyu (log w) (execute_argv cfg cmd housecode) in
  execute cfg heyu cmd housecode w =
  (Ok returncode,
   World (rcvihc w) (log w ++ execute_effects cfg cmd housecode returncode)).
Proof.
  cbv zeta. unfold execute, execute_effects.
  assert (E : (if cm17 cfg
               then if lower cmd =? "off" then "foff"
                    else if lower cmd =? "on" then "fon" else cmd
               else cmd) = heyucmd_of cfg cmd) by reflexivity.
  cbv zeta. rewrite E. fold (execute_argv cfg cmd housecode).
  unfold subprocess_run, print, publish, emit, bind, ret. cbn [rcvihc log].
  destruct (heyu (log w) (execute_argv cfg cmd housecode) =? 0)%Z;
    cbn [rcvihc log]; rewrite <- ?app_assoc; reflexivity.
Qed.

(** A message that passes the two checks of [on_message]. *)
Lemma on_message_accepts cfg heyu msg seg c w :
  str_in (upper (payload msg)) ["ON"; "OFF"] = true ->
  index (split "/" (topic msg)) (length (split "/" (topic msg)) - 1) = ret seg ->
  re_match hcpattern (upper seg) = Some c ->
  let log1 := (log w ++ [ Print ("Received: " ++ topic msg ++ " " ++ upper (payload msg));
                          Print ("Sending X10 command to homecode " ++ upper seg) ])%list in
  on_message cfg heyu msg w =
  (Ok tt,
   World (rcvihc w)
     (log1 ++ execute_effects cfg (upper (payload msg)) (upper seg)
                (heyu log1 (execute_argv cfg (upper (payload msg)) (upper seg))))).
Proof.
  intros Hcmd Hidx Hre. cbv zeta. unfold on_message. cbv zeta.
  unfold bind at 1. unfold print at 1. cbn [emit].
  unfold bind at 1. rewrite Hidx. cbn [ret]. rewrite Hcmd, Hre. cbn [andb].
  unfold bind at 1. unfold print at 1. cbn [emit rcvihc log].
  unfold bind at 1. rewrite execute_run. cbn [rcvihc log ret].
  rewrite <- !app_assoc. reflexivity.
Qed.

(** A message that fails one of them. *)
Lemma on_message_rejects cfg heyu msg w :
  str_in (upper (payload msg)) ["ON"; "OFF"] = false
  \/ re_match hcpattern (upper (last (split "/" (topic msg)) EmptyString)) = None ->
  on_message cfg heyu msg w =
  (Ok tt,
   World (rcvihc w)
     (log w ++ [ Print ("Received: " ++ topic msg ++ " " ++ upper (payload msg));
                 Print "Invalid command or home code" ])).
Proof.
  intros H. unfold on_message. cbv zeta.
  destruct (index_last_total (topic msg)) as [seg [Hidx Hseg]]. cbv zeta in Hidx.
  unfold bind at 1. unfold print at 1. cbn [emit].
  unfold bind at 1. rewrite Hidx. cbn [ret]. rewrite <- Hseg in H.
  assert (E : str_in (upper (payload msg)) ["ON"; "OFF"]
              && match re_match hcpattern (upper seg) with
                 | Some _ => true
                 | None => false
                 end = false).
  { destruct H as [-> | ->]; [reflexivity | apply andb_false_r]. }
  rewrite E. unfold print, emit. cbn [rcvihc log].
  rewrite <- app_assoc. reflexivity.
Qed.

(** The pattern rejects whatever is neither a housecode of the grammar nor
    such a housecode with a newline after it. *)
Lemma hcpattern_rejects s :
  (forall g, housecode_grammar g = true -> s <> g /\ s <> g ++ nl) ->
  re_match hcpattern s = None.
Proof.
  intros H. destruct (re_match hcpattern s) as [c|] eqn:E; [|reflexivity].
  apply hcpattern_match_inv in E. destruct E as [g [Hg [E | E]]];
    destruct (H g Hg) as [H1 H2]; contradiction.
Qed.

(** So [on_message] drops a message whose payload is not ON or OFF in any
    case, or whose last topic segment upper-cases to neither. *)
Lemma on_message_drops cfg heyu msg w :
  str_in (upper (payload msg)) ["ON"; "OFF"] = false
  \/ (forall g, housecode_grammar g = true ->
        upper (last (split "/" (topic msg)) EmptyString) <> g
        /\ upper (last (split "/" (topic msg)) EmptyString) <> g ++ nl) ->
  invocations (effects_of (on_message cfg heyu msg) w) = []
  /\ publishes (effects_of (on_message cfg heyu msg) w) = []
  /\ prints (effects_of (on_message cfg heyu msg) w)
     = [ "Received: " ++ topic msg ++ " " ++ upper (payload msg);
         "Invalid command or home code" ].
Proof.
  intros H.
  erewrite effects_of_log.
  2:{ rewrite on_message_rejects; [reflexivity|].
      destruct H as [H | H]; [left; exact H | right; apply hcpattern_rejects; exact H]. }
  repeat split.
Qed.

Lemma command_upper C : C = "ON" \/ C = "OFF" -> upper C = C.
Proof. intros [-> | ->]; reflexivity. Qed.

Lemma command_in C : C = "ON" \/ C = "OFF" -> str_in C ["ON"; "OFF"] = true.
Proof. intros [-> | ->]; reflexivity. Qed.

Lemma heyucmd_of_command cfg C :
  C = "ON" \/ C = "OFF" -> lower (heyucmd_of cfg C) = lower (mode_action (cm17 cfg) C).
Proof.
  unfold heyucmd_of, mode_action. intros [-> | ->]; destruct (cm17 cfg); reflexivity.
Qed.

Lemma execute_effects_invocations cfg cmd hc rc :
  invocations (execute_effects cfg cmd hc rc) = [execute_argv cfg cmd hc].
Proof. unfold execute_effects. destruct (rc =? 0)%Z; reflexivity. Qed.

Lemma execute_effects_publishes cfg cmd hc rc :
  publishes (execute_effects cfg cmd hc rc)
  = [(stattopic cfg ++ "/" ++ lower hc, upper cmd, true)].
Proof. unfold execute_effects. destruct (rc =? 0)%Z; reflexivity. Qed.

(** ** Discovery *)

Lemma ha_discovery_announce_writes cfg house unit :
  writes (ha_discovery_announce cfg house unit) (announce_effects cfg house unit).
Proof.
  unfold ha_discovery_announce, announce_effects. cbv zeta.
  apply (writes_bind _ _ [_] [_]); apply writes_emit.
Qed.

Lemma on_connect_writes cfg rc : writes (on_connect cfg rc) (connect_effects cfg rc).
Proof.
  unfold on_connect, connect_effects.
  apply writes_bind.
  { destruct (rc =? 0)%Z; [apply writes_ret | apply writes_emit]. }
  apply (writes_bind _ _ [_]); [apply writes_emit|].
  apply (writes_bind _ _ [_]); [apply writes_emit|].
  apply writes_for_each. intros house.
  apply (writes_bind _ _ [_]); [apply writes_emit|].
  apply writes_for_each. intros unit.
  apply ha_discovery_announce_writes.
Qed.

Lemma publishes_announces cfg house units :
  publishes (flat_map (announce_effects cfg house) units)
  = map (fun unit => discovery_message cfg (house, unit)) units.
Proof.
  induction units as [|u units IH]; cbn [flat_map map]; [reflexivity|].
  rewrite publishes_app, IH. reflexivity.
Qed.

Lemma publishes_connect cfg rc :
  publishes (connect_effects cfg rc)
  = map (discovery_message cfg) (list_prod (discoveryhouses cfg) (seq 1 16)).
Proof.
  unfold connect_effects. rewrite !publishes_app.
  replace (publishes (if (rc =? 0)%Z then [] else _)) with (@nil (string * string * bool))
    by (destruct (rc =? 0)%Z; reflexivity).
  cbn [publishes app].
  induction (discoveryhouses cfg) as [|h hs IH]; [reflexivity|].
  cbn [flat_map list_prod]. rewrite map_app, map_map, <- IH.
  cbn [app publishes]. rewrite publishes_app, publishes_announces. reflexivity.
Qed.

Lemma on_connect_publishes cfg rc w :
  publishes (effects_of (on_connect cfg rc) w)
  = map (discovery_message cfg) (list_prod (discoveryhouses cfg) (seq 1 16)).
Proof.
  rewrite (writes_effects _ _ w (on_connect_writes cfg rc)). apply publishes_connect.
Qed.

Lemma append_inj_l p : forall a b, p ++ a = p ++ b -> a = b.
Proof.
  induction p as [|c p IH]; cbn [append]; intros a b H; [exact H|].
  inversion H. apply IH. assumption.
Qed.

Lemma str_in_spec x l : str_in x l = true <-> In x l.
Proof.
  unfold str_in. rewrite existsb_exists. split.
  - intros [y [Hy E]]. apply String.eqb_eq in E. subst. exact Hy.
  - intros H. exists x. split; [exact H | apply String.eqb_refl].
Qed.

Lemma distinctb_NoDup l : distinctb l = true -> NoDup l.
Proof.
  induction l as [|x l IH]; cbn [distinctb]; intros H; constructor.
  - apply andb_true_iff in H. destruct H as [H _].
    intros Hin. apply str_in_spec in Hin. rewrite Hin in H. discriminate.
  - apply IH. apply andb_true_iff in H. apply H.
Qed.

(** ** Lines that match are not empty *)

Lemma addr_line_truthy line a : addr_of line = Some a -> truthy line = true.
Proof. destruct line; [vm_compute; discriminate | reflexivity]. Qed.

Lemma func_line_truthy line f : func_of line = Some f -> truthy line = true.
Proof. destruct line; [vm_compute; discriminate | reflexivity]. Qed.

Lemma spawns_events cfg es : spawns (flat_map (event_effects cfg) es) = [].
Proof. induction es as [|e es IH]; cbn [flat_map event_effects app spawns]; auto. Qed.

Lemma spawns_app l1 l2 : spawns (l1 ++ l2) = (spawns l1 ++ spawns l2)%list.
Proof.
  induction l1 as [|e l1 IH]; simpl; [reflexivity|].
  destruct e; simpl; rewrite IH; reflexivity.
Qed.

Lemma NoDup_map_append p l : NoDup l -> NoDup (map (append p) l).
Proof.
  induction 1 as [|x l Hx Hl IH]; cbn [map]; constructor; [|exact IH].
  intros Hin. apply in_map_iff in Hin. destruct Hin as [y [E Hy]].
  apply append_inj_l in E. subst. contradiction.
Qed.

(** * The claims *)

(** C1. For every housecode [H] of the grammar [[A-P][0-9]+] and every command
    [C] among ON and OFF, the message with topic [cmdtopic/H] and payload [C]
    makes [on_message] run the controller exactly once, as
    [heyu <action> <lowercase H>], where the action is the mode-mapped one
    (ON or OFF in the primary mode, FON or FOFF with a CM17) written in lower
    case as [heyu] spells it, and publish exactly once: payload [C], retained,
    to [stattopic/<lowercase H>]. *)
Theorem command_dispatched_once cfg heyu H C w :
  housecode_grammar H = true ->
  C = "ON" \/ C = "OFF" ->
  let es := effects_of (on_message cfg heyu (Message (cmdtopic cfg ++ "/" ++ H) C)) w in
  invocations es = [["heyu"; lower (mode_action (cm17 cfg) C); lower H]]
  /\ publishes es = [(stattopic cfg ++ "/" ++ lower H, C, true)].
Proof.
  intros HH HC. cbv zeta.
  pose proof (index_last_segment (cmdtopic cfg) H (no_slash_housecode H HH)) as Hidx.
  cbv zeta in Hidx.
  erewrite effects_of_log.
  2:{ rewrite (on_message_accepts cfg heyu _ H []); cbn [topic payload].
      - cbn [snd log]. rewrite <- app_assoc. reflexivity.
      - rewrite command_upper by exact HC. apply command_in. exact HC.
      - exact Hidx.
      - rewrite upper_housecode by exact HH. apply hcpattern_accepts. exact HH. }
  rewrite !invocations_app, !publishes_app.
  rewrite execute_effects_invocations, execute_effects_publishes.
  rewrite !(command_upper C HC), !(upper_housecode H HH).
  unfold execute_argv. rewrite heyucmd_of_command by exact HC.
  split; reflexivity.
Qed.

Lemma command_dispatched_once_witness :
  let es := effects_of (on_message cm17_config heyu_ok (Message "x10/cmd/A1" "ON")) initial in
  invocations es = [["heyu"; "fon"; "a1"]]
  /\ publishes es = [("x10/stat/a1", "ON", true)].
Proof.
  apply (command_dispatched_once cm17_config heyu_ok "A1" "ON" initial).
  - reflexivity.
  - left. reflexivity.
Defined.

(** C2. When [heyu] ends with a non-zero exit code, [execute] prints the
    error, still publishes the commanded value, retained, to
    [stattopic/<lowercase housecode>] - the same publish as after a
    successful run - and returns the exit code. *)
Theorem publish_despite_failure cfg heyu cmd housecode w :
  heyu (log w) (execute_argv cfg cmd housecode) <> 0%Z ->
  let rc := heyu (log w) (execute_argv cfg cmd housecode) in
  execute cfg heyu cmd housecode w =
    (Ok rc,
     World (rcvihc w)
       (log w ++ [ Run (execute_argv cfg cmd housecode);
                   Print ("Error running heyu, return code: " ++ str_int rc);
                   Print ("Device Status Update: " ++ stattopic cfg ++ "/"
                            ++ lower housecode);
                   Publish (stattopic cfg ++ "/" ++ lower housecode) (upper cmd) true ]))
  /\ publishes (effects_of (execute cfg heyu cmd housecode) w)
     = [(stattopic cfg ++ "/" ++ lower housecode, upper cmd, true)]
  /\ publishes (effects_of (execute cfg heyu cmd housecode) w)
     = publishes (effects_of (execute cfg heyu_ok cmd housecode) w).
Proof.
  intros Hrc. cbv zeta.
  assert (P : forall h, publishes (effects_of (execute cfg h cmd housecode) w)
                        = [(stattopic cfg ++ "/" ++ lower housecode, upper cmd, true)]).
  { intros h. erewrite effects_of_log by (rewrite execute_run; reflexivity).
    apply execute_effects_publishes. }
  split; [|split].
  - rewrite execute_run. cbv zeta. unfold execute_effects.
    apply Z.eqb_neq in Hrc. rewrite Hrc. reflexivity.
  - apply P.
  - rewrite !P. reflexivity.
Qed.

Lemma publish_despite_failure_witness :
  execute default_config heyu_fails "ON" "A1" initial =
    (Ok 1%Z,
     World EmptyString
       [ Run ["heyu"; "on"; "a1"];
         Print "Error running heyu, return code: 1";
         Print "Device Status Update: x10/stat/a1";
         Publish "x10/stat/a1" "ON" true ])
  /\ publishes (effects_of (execute default_config heyu_fails "ON" "A1") initial)
     = [("x10/stat/a1", "ON", true)]
  /\ publishes (effects_of (execute default_config heyu_fails "ON" "A1") initial)
     = publishes (effects_of (execute default_config heyu_ok "ON" "A1") initial).
Proof.
  apply (publish_despite_failure default_config heyu_fails "ON" "A1" initial).
  vm_compute. discriminate.
Defined.

(** C6, at the input where the code leaves it.  The last topic segment
    [A1] followed by a newline is not in the grammar [[A-P][0-9]+], yet the
    [$] of the pattern matches before a final newline: the message is
    accepted, [heyu] is run and the state is published, newline included. *)
Theorem trailing_newline_accepted :
  let msg := Message ("x10/cmd/A1" ++ nl) "ON" in
  let es := effects_of (on_message default_config heyu_ok msg) initial in
  housecode_grammar (upper (last (split "/" (topic msg)) EmptyString)) = false
  /\ invocations es = [["heyu"; "on"; "a1" ++ nl]]
  /\ publishes es = [("x10/stat/a1" ++ nl, "ON", true)].
Proof. vm_compute. repeat split. Qed.

(** C10. The pattern puts no bound on the unit number: whenever the payload
    upper-cases to ON or OFF and the last topic segment upper-cases to a
    letter from A to P followed by one or more digits, whatever number they
    spell, [on_message] runs [heyu] for that housecode and publishes its
    state; [on_connect] for its part announces units 1 to 16 only. *)
Theorem unit_number_unbounded cfg heyu msg w :
  housecode_grammar (upper (last (split "/" (topic msg)) EmptyString)) = true ->
  upper (payload msg) = "ON" \/ upper (payload msg) = "OFF" ->
  let hc := upper (last (split "/" (topic msg)) EmptyString) in
  let es := effects_of (on_message cfg heyu msg) w in
  (invocations es = [["heyu"; lower (mode_action (cm17 cfg) (upper (payload msg))); lower hc]]
   /\ publishes es = [(stattopic cfg ++ "/" ++ lower hc, upper (payload msg), true)])
  /\ forall rc w' m_,
       In m_ (publishes (effects_of (on_connect cfg rc) w')) ->
       exists house unit,
         In house (discoveryhouses cfg) /\ 1 <= unit <= 16
         /\ m_ = discovery_message cfg (house, unit).
Proof.
  intros HH HC. cbv zeta. split.
  - destruct (index_last_total (topic msg)) as [seg [Hidx Hseg]]. cbv zeta in Hidx.
    rewrite <- Hseg in *.
    erewrite effects_of_log.
    2:{ rewrite (on_message_accepts cfg heyu msg seg []).
        - cbn [snd log]. rewrite <- app_assoc. reflexivity.
        - apply command_in. exact HC.
        - exact Hidx.
        - apply hcpattern_accepts. exact HH. }
    rewrite !invocations_app, !publishes_app.
    rewrite execute_effects_invocations, execute_effects_publishes.
    rewrite !(command_upper _ HC).
    unfold execute_argv. rewrite heyucmd_of_command by exact HC.
    split; reflexivity.
  - intros rc w' m_ Hin. rewrite on_connect_publishes in Hin.
    apply in_map_iff in Hin. destruct Hin as [[house unit] [E Hin]].
    apply in_prod_iff in Hin. destruct Hin as [Hh Hu]. apply in_seq in Hu.
    exists house, unit. split; [exact Hh|]. split; [lia | symmetry; exact E].
Qed.

Lemma unit_number_unbounded_witness :
  (let es := effects_of (on_message default_config heyu_ok (Message "x10/cmd/A0" "ON"))
               initial in
   invocations es = [["heyu"; "on"; "a0"]]
   /\ publishes es = [("x10/stat/a0", "ON", true)])
  /\ (let es := effects_of (on_message default_config heyu_ok (Message "x10/cmd/a123" "off"))
                  initial in
      invocations es = [["heyu"; "off"; "a123"]]
      /\ publishes es = [("x10/stat/a123", "OFF", true)]).
Proof.
  split.
  - apply (unit_number_unbounded default_config heyu_ok (Message "x10/cmd/A0" "ON") initial).
    + reflexivity.
    + left. reflexivity.
  - apply (unit_number_unbounded default_config heyu_ok (Message "x10/cmd/a123" "off")
             initial).
    + reflexivity.
    + right. reflexivity.
Defined.

(** C3, as amended.  The two patterns are not disjoint: one line can hold
    an address declaration and a function report.  The main loop tests every
    line against both patterns, the address first: on a line that matches
    both it stores the declared housecode and then, at once, publishes the
    event for that housecode and empties the slot, whatever was pending
    before. *)
Theorem both_patterns_one_line cfg line a f w :
  addr_of line = Some a ->
  func_of line = Some f ->
  handle_line cfg line w =
    (Ok tt, World EmptyString (log w ++ event_effects cfg (a, f)))
  /\ publishes (effects_of (handle_line cfg line) w)
     = [(stattopic cfg ++ "/" ++ lower a, upper f, true)].
Proof.
  intros Ha Hf.
  assert (E : handle_line cfg line w
              = (Ok tt, World EmptyString (log w ++ event_effects cfg (a, f)))).
  { rewrite handle_line_step. unfold line_step. rewrite Ha, Hf.
    rewrite (addr_of_truthy _ _ Ha). cbn [fst snd flat_map]. rewrite app_nil_r.
    reflexivity. }
  split; [exact E|].
  erewrite effects_of_log by (rewrite E; reflexivity). reflexivity.
Qed.

Lemma both_patterns_one_line_witness :
  handle_line default_config sample_both initial =
    (Ok tt,
     World EmptyString
       [ Print "Remote status change, publishing stat update: x10/stat/a1 is now ON";
         Publish "x10/stat/a1" "ON" true ])
  /\ publishes (effects_of (handle_line default_config sample_both) initial)
     = [("x10/stat/a1", "ON", true)].
Proof.
  apply (both_patterns_one_line default_config sample_both "A1" "On" initial).
  - vm_compute. reflexivity.
  - vm_compute. reflexivity.
Defined.

(** C3 as stated fails: this line matches the address pattern and the
    function pattern. *)
Lemma patterns_overlap :
  search rercviaddr sample_both = Some [(1, "A1")]
  /\ search rercvifunc sample_both = Some [(1, "On")]
  /\ ~ (forall line, search rercviaddr line = None \/ search rercvifunc line = None).
Proof.
  split; [vm_compute; reflexivity|]. split; [vm_compute; reflexivity|].
  intros H. destruct (H sample_both) as [E | E]; vm_compute in E; discriminate.
Qed.

(** C4, as amended.  With no housecode pending at the start, every state
    event the main loop publishes comes from an address line followed by a
    function line, or from one line that holds both (the patterns overlap);
    an address line for [a] and then a function line for [f] give exactly
    one event, ([a], [f]); with nothing pending, [rcvifunc] publishes nothing
    and changes nothing, and so does the loop body on a line that matches
    the function pattern and not the address pattern. *)
Theorem events_only_from_pairs cfg p w :
  rcvihc w = EmptyString ->
  (forall t pl r,
     In (t, pl, r) (publishes (effects_of (main_loop cfg p) w)) ->
     exists a f, paired a f (stdout p)
                 /\ t = stattopic cfg ++ "/" ++ lower a /\ pl = upper f /\ r = true)
  /\ (forall la lf a f,
        stdout p = [la; lf] ->
        addr_of la = Some a -> func_of la = None ->
        addr_of lf = None -> func_of lf = Some f ->
        publishes (effects_of (main_loop cfg p) w)
        = [(stattopic cfg ++ "/" ++ lower a, upper f, true)])
  /\ (forall func, rcvifunc cfg func w = (Ok tt, w))
  /\ (forall lf, addr_of lf = None -> handle_line cfg lf w = (Ok tt, w))
  /\ (forall lf, stdout p = [lf] -> addr_of lf = None ->
        publishes (effects_of (main_loop cfg p) w) = []).
Proof.
  intros Hw. split; [|split; [|split; [|split]]].
  - intros t pl r H. rewrite main_loop_publishes in H. apply in_map_iff in H.
    destruct H as [[a f] [E Hin]]. inversion E; subst. clear E.
    rewrite Hw in Hin. apply lines_run_paired in Hin.
    destruct Hin as [[Ht _] | Hp]; [discriminate|].
    exists a, f. split; [|auto].
    destruct (yielded_prefix (stdout p)) as [more ->]. apply paired_app. exact Hp.
  - intros la lf a f Hp Ha Hf Ha' Hf'.
    rewrite main_loop_publishes, Hp, Hw. cbn [yielded].
    rewrite (addr_line_truthy _ _ Ha), (func_line_truthy _ _ Hf').
    cbn [lines_run]. unfold line_step. rewrite Ha, Hf, Ha', Hf'.
    rewrite (addr_of_truthy _ _ Ha). reflexivity.
  - intros func. unfold rcvifunc, get_rcvihc, bind. rewrite Hw.
    destruct w; reflexivity.
  - intros lf H. rewrite handle_line_step. unfold line_step. rewrite H, Hw.
    destruct (func_of lf); cbn [truthy fst snd flat_map]; rewrite app_nil_r;
      destruct w; cbn in *; subst; reflexivity.
  - intros lf Hp Ha. rewrite main_loop_publishes, Hp, Hw. cbn [yielded].
    destruct (truthy lf); [|reflexivity].
    cbn [lines_run]. unfold line_step. rewrite Ha.
    destruct (func_of lf); reflexivity.
Qed.

Lemma events_only_from_pairs_witness :
  publishes (effects_of (main_loop default_config
                           (Process [sample_addr_a1; sample_func_on] 0)) initial)
    = [("x10/stat/a1", "ON", true)]
  /\ handle_line default_config sample_func_on initial = (Ok tt, initial)
  /\ publishes (effects_of (main_loop default_config (Process [sample_func_on] 0)) initial)
     = [].
Proof.
  split; [|split].
  - destruct (events_only_from_pairs default_config
                (Process [sample_addr_a1; sample_func_on] 0) initial eq_refl)
      as [_ [H _]].
    apply (H sample_addr_a1 sample_func_on "A1" "On");
      first [reflexivity | vm_compute; reflexivity].
  - destruct (events_only_from_pairs default_config
                (Process [sample_func_on] 0) initial eq_refl)
      as [_ [_ [_ [H _]]]].
    apply H. vm_compute. reflexivity.
  - destruct (events_only_from_pairs default_config
                (Process [sample_func_on] 0) initial eq_refl)
      as [_ [_ [_ [_ H]]]].
    apply (H sample_func_on); first [reflexivity | vm_compute; reflexivity].
Defined.

(** C4 as stated fails: with nothing pending, this single line, which
    matches the function pattern and has no address line before it, gives
    one event; and a sequence of one line holds no address line followed by
    a function line. *)
Lemma function_line_alone_emits :
  rcvihc initial = EmptyString
  /\ search rercvifunc sample_both = Some [(1, "On")]
  /\ publishes (effects_of (main_loop default_config (Process [sample_both] 0)) initial)
     = [("x10/stat/a1", "ON", true)]
  /\ ~ (forall lf,
          search rercvifunc lf <> None ->
          publishes (effects_of (main_loop default_config (Process [lf] 0)) initial) = [])
  /\ ~ (exists pre mid post la lf,
          [sample_both] = (pre ++ la :: mid ++ lf :: post)%list).
Proof.
  split; [reflexivity|]. split; [vm_compute; reflexivity|].
  split; [vm_compute; reflexivity|]. split.
  - intros H. specialize (H sample_both).
    assert (E : search rercvifunc sample_both <> None) by (vm_compute; discriminate).
    apply H in E. vm_compute in E. discriminate E.
  - intros [pre [mid [post [la [lf E]]]]].
    apply (f_equal (@length string)) in E.
    rewrite length_app in E. cbn [length] in E. rewrite length_app in E.
    cbn [length] in E. lia.
Qed.

(** C5. A second address line before any function line replaces the pending
    housecode: an address line for [a], an address line for [b] and a
    function line for [f] give exactly one event, ([b], [f]); nothing is
    published for [a], and no housecode is left pending. *)
Theorem second_address_wins cfg rc la lb lf a b f w :
  addr_of la = Some a -> func_of la = None ->
  addr_of lb = Some b -> func_of lb = None ->
  addr_of lf = None -> func_of lf = Some f ->
  publishes (effects_of (main_loop cfg (Process [la; lb; lf] rc)) w)
    = [(stattopic cfg ++ "/" ++ lower b, upper f, true)]
  /\ rcvihc (snd (main_loop cfg (Process [la; lb; lf] rc) w)) = EmptyString.
Proof.
  intros Ha Hf Hb Hfb Ha' Hf'.
  assert (E : lines_run (rcvihc w) (yielded [la; lb; lf]) = (EmptyString, [(b, f)])).
  { cbn [yielded].
    rewrite (addr_line_truthy _ _ Ha), (addr_line_truthy _ _ Hb),
      (func_line_truthy _ _ Hf').
    cbn [lines_run]. unfold line_step. rewrite Ha, Hf, Hb, Hfb, Ha', Hf'.
    rewrite (addr_of_truthy _ _ Hb). reflexivity. }
  split.
  - rewrite main_loop_publishes. cbn [stdout]. rewrite E. reflexivity.
  - rewrite main_loop_run. cbn [stdout snd rcvihc]. rewrite E. reflexivity.
Qed.

Lemma second_address_wins_witness :
  publishes (effects_of (main_loop default_config
               (Process [sample_addr_a1; sample_addr_b2; sample_func_off] 0)) initial)
    = [("x10/stat/b2", "OFF", true)]
  /\ rcvihc (snd (main_loop default_config
               (Process [sample_addr_a1; sample_addr_b2; sample_func_off] 0) initial))
     = EmptyString.
Proof.
  apply (second_address_wins default_config 0%Z
           sample_addr_a1 sample_addr_b2 sample_func_off "A1" "B2" "Off" initial);
    vm_compute; reflexivity.
Defined.

(** C7, as amended.  The main loop starts [heyu monitor] once and never
    again.  When the process ends with a non-zero code, the generator raises
    (the name [cmd] of its [raise] statement is not defined, so the exception
    is a NameError), nothing catches it and the program dies; when it ends
    with code 0 the loop just ends, and no failure is signalled. *)
Theorem monitor_exit_fatal_unless_zero cfg p w :
  fst (main_loop cfg p w)
    = (if (wait p =? 0)%Z then Ok tt else Raise (NameError "cmd"))
  /\ spawns (effects_of (main_loop cfg p) w) = [["heyu"; "monitor"]].
Proof.
  split.
  - rewrite main_loop_run. reflexivity.
  - erewrite effects_of_log by (rewrite main_loop_run; reflexivity).
    cbn [spawns]. rewrite spawns_events. reflexivity.
Qed.

(** C7 as stated fails: a monitor that ends with code 0 signals nothing. *)
Lemma clean_exit_signals_nothing :
  fst (main_loop default_config (Process [sample_addr_a1] 0) initial) = Ok tt
  /\ forall e, fst (main_loop default_config (Process [sample_addr_a1] 0) initial)
               <> Raise e.
Proof.
  split; [vm_compute; reflexivity|].
  intros e H. vm_compute in H. discriminate.
Qed.

(** C8. With the housecode letters A and B configured, [on_connect]
    publishes exactly 32 discovery messages, all retained, one for each
    letter and each unit from 1 to 16, no two to the same topic.  The
    message of a unit goes to
    [<discoverytopic>/switch/x10mqtt/x10_<letter in lower case><unit>/config]
    and its payload is the JSON text of a dictionary whose keys are exactly
    name, state_topic, command_topic and unique_id, the unique_id being
    [x10mqtt_x10_] followed by the letter in lower case and the unit. *)
Theorem discovery_announces_32 cfg rc w :
  discoveryhouses cfg = ["A"; "B"] ->
  let ps := publishes (effects_of (on_connect cfg rc) w) in
  ps = map (discovery_message cfg) (list_prod ["A"; "B"] (seq 1 16))
  /\ length ps = 32
  /\ NoDup (map (fun m_ => fst (fst m_)) ps)
  /\ NoDup ps
  /\ Forall (fun m_ => snd m_ = true) ps
  /\ forall house unit,
       In (house, unit) (list_prod ["A"; "B"] (seq 1 16)) ->
       fst (fst (discovery_message cfg (house, unit)))
         = discoverytopic cfg ++ "/switch/x10mqtt/x10_" ++ lower house ++ str_nat unit
             ++ "/config"
       /\ snd (fst (discovery_message cfg (house, unit)))
          = json_dumps (ha_discovery_config cfg house unit)
       /\ keys (ha_discovery_config cfg house unit)
          = ["name"; "state_topic"; "command_topic"; "unique_id"]
       /\ dict_get (ha_discovery_config cfg house unit) "unique_id"
          = Some ("x10mqtt_x10_" ++ lower house ++ str_nat unit).
Proof.
  intros Hh. cbv zeta. rewrite on_connect_publishes, Hh.
  assert (T : NoDup (map (fun m_ : string * string * bool => fst (fst m_))
                       (map (discovery_message cfg) (list_prod ["A"; "B"] (seq 1 16))))).
  { rewrite map_map.
    change (NoDup (map (fun hu : string * nat =>
                          discoverytopic cfg
                            ++ ("/switch/x10mqtt/x10_" ++ lower (fst hu)
                                  ++ str_nat (snd hu) ++ "/config"))
                     (list_prod ["A"; "B"] (seq 1 16)))).
    rewrite <- (map_map
                  (fun hu : string * nat =>
                     "/switch/x10mqtt/x10_" ++ lower (fst hu) ++ str_nat (snd hu)
                       ++ "/config")
                  (append (discoverytopic cfg))).
    apply NoDup_map_append. apply distinctb_NoDup. vm_compute. reflexivity. }
  split; [reflexivity|]. split; [reflexivity|]. split; [exact T|].
  split; [exact (NoDup_map_inv _ _ T)|].
  split.
  - apply Forall_forall. intros m_ Hin. apply in_map_iff in Hin.
    destruct Hin as [hu [<- _]]. reflexivity.
  - intros house unit _. repeat split.
Qed.

Lemma discovery_announces_32_witness :
  let ps := publishes (effects_of (on_connect ab_config 0) initial) in
  ps = map (discovery_message ab_config) (list_prod ["A"; "B"] (seq 1 16))
  /\ length ps = 32
  /\ NoDup (map (fun m_ => fst (fst m_)) ps)
  /\ NoDup ps
  /\ Forall (fun m_ => snd m_ = true) ps
  /\ forall house unit,
       In (house, unit) (list_prod ["A"; "B"] (seq 1 16)) ->
       fst (fst (discovery_message ab_config (house, unit)))
         = "homeassistant" ++ "/switch/x10mqtt/x10_" ++ lower house ++ str_nat unit
             ++ "/config"
       /\ snd (fst (discovery_message ab_config (house, unit)))
          = json_dumps (ha_discovery_config ab_config house unit)
       /\ keys (ha_discovery_config ab_config house unit)
          = ["name"; "state_topic"; "command_topic"; "unique_id"]
       /\ dict_get (ha_discovery_config ab_config house unit) "unique_id"
          = Some ("x10mqtt_x10_" ++ lower house ++ str_nat unit).
Proof.
  apply (discovery_announces_32 ab_config 0%Z initial). reflexivity.
Defined.

(** C9. Discovery is a function of the configuration alone.  Whatever has
    happened before and whatever the connection result code,
    [ha_discovery_announce] prints and publishes the same topic and the same
    payload for a letter and a unit, [on_connect] publishes the same
    messages, and connecting twice publishes them twice over. *)
Theorem discovery_deterministic cfg house unit rc1 rc2 w1 w2 :
  effects_of (ha_discovery_announce cfg house unit) w1
    = effects_of (ha_discovery_announce cfg house unit) w2
  /\ publishes (effects_of (ha_discovery_announce cfg house unit) w1)
     = [discovery_message cfg (house, unit)]
  /\ publishes (effects_of (on_connect cfg rc1) w1)
     = publishes (effects_of (on_connect cfg rc2) w2)
  /\ publishes (effects_of (on_connect cfg rc1 ;; on_connect cfg rc2) w1)
     = (publishes (effects_of (on_connect cfg rc1) w1)
          ++ publishes (effects_of (on_connect cfg rc1) w1))%list.
Proof.
  split; [|split; [|split]].
  - rewrite !(writes_effects _ _ _ (ha_discovery_announce_writes cfg house unit)).
    reflexivity.
  - rewrite (writes_effects _ _ _ (ha_discovery_announce_writes cfg house unit)).
    reflexivity.
  - rewrite !on_connect_publishes. reflexivity.
  - rewrite (writes_effects _ _ w1
               (writes_bind _ _ _ _ (on_connect_writes cfg rc1) (on_connect_writes cfg rc2))).
    rewrite publishes_app, on_connect_publishes, !publishes_connect. reflexivity.
Qed.

(** * Further properties of the code *)

(** ** [on_message] *)

(** Whatever the message, [on_message] does exactly this. *)
Lemma on_message_run cfg heyu msg w :
  on_message cfg heyu msg w =
  (Ok tt, World (rcvihc w) (log w ++ message_effects cfg heyu msg w)).
Proof.
  unfold message_effects, accepted. cbv zeta.
  destruct (index_last_total (topic msg)) as [seg [Hidx Hseg]]. cbv zeta in Hidx.
  rewrite <- Hseg.
  destruct (str_in (upper (payload msg)) ["ON"; "OFF"]) eqn:Ec;
    [destruct (re_match hcpattern (upper seg)) as [c|] eqn:Er|]; cbn [andb].
  - rewrite (on_message_accepts cfg heyu msg seg c w Ec Hidx Er). cbv zeta.
    rewrite <- app_assoc. reflexivity.
  - rewrite on_message_rejects; [reflexivity|]. right. rewrite <- Hseg. exact Er.
  - rewrite on_message_rejects; [reflexivity|]. left. exact Ec.
Qed.

Lemma on_message_effects cfg heyu msg w :
  effects_of (on_message cfg heyu msg) w = message_effects cfg heyu msg w.
Proof. apply effects_of_log. rewrite on_message_run. reflexivity. Qed.

(** The runs and the publishes of a message: none when it is dropped, one of
    each when it is accepted. *)
Lemma on_message_summary cfg heyu msg w :
  let command := upper (payload msg) in
  let hc := upper (last (split "/" (topic msg)) EmptyString) in
  invocations (effects_of (on_message cfg heyu msg) w)
    = (if accepted msg then [execute_argv cfg command hc] else [])
  /\ publishes (effects_of (on_message cfg heyu msg) w)
     = (if accepted msg then [(stattopic cfg ++ "/" ++ lower hc, upper command, true)]
        else []).
Proof.
  cbv zeta. rewrite on_message_effects. unfold message_effects. cbv zeta.
  destruct (accepted msg); cbn [invocations publishes];
    rewrite ?execute_effects_invocations, ?execute_effects_publishes; split; reflexivity.
Qed.

Lemma str_in_on_off C : str_in C ["ON"; "OFF"] = true -> C = "ON" \/ C = "OFF".
Proof.
  intros H. apply str_in_spec in H. destruct H as [H | [H | []]]; auto.
Qed.

Lemma lower_append s t : lower (s ++ t) = lower s ++ lower t.
Proof.
  unfold lower. induction s as [|a s IH]; cbn [append map_string]; [|rewrite IH];
    reflexivity.
Qed.

(** Once the payload is text, [on_message] returns, leaves the pending
    housecode alone, and either drops the message or runs [heyu] once and
    publishes once. *)
Lemma on_message_total cfg heyu msg w :
  fst (on_message cfg heyu msg w) = Ok tt
  /\ rcvihc (snd (on_message cfg heyu msg w)) = rcvihc w
  /\ (effects_of (on_message cfg heyu msg) w
        = [ Print ("Received: " ++ topic msg ++ " " ++ upper (payload msg));
            Print "Invalid command or home code" ]
      \/ (length (invocations (effects_of (on_message cfg heyu msg) w)) = 1
          /\ length (publishes (effects_of (on_message cfg heyu msg) w)) = 1)).
Proof.
  destruct (on_message_summary cfg heyu msg w) as [Hi Hp]. cbv zeta in Hi, Hp.
  rewrite Hi, Hp, on_message_effects, on_message_run.
  split; [reflexivity|]. split; [reflexivity|].
  unfold message_effects. cbv zeta.
  destruct (accepted msg); [right; split; reflexivity | left; reflexivity].
Qed.

(** X1. The only exception [on_message] raises is the UnicodeDecodeError
    of a payload that is not UTF-8, and it raises it before it has printed,
    run or published anything; the index [len(topiclist)-1] is always in
    range.  On a payload that decodes it returns, and the message is either
    dropped with two lines of log or gives exactly one [heyu] run and one
    publish.  In no case does it touch the housecode the monitor loop has
    pending. *)
Theorem on_message_raises_only_undecodable cfg heyu topic_ payload_ w :
  rcvihc (snd (on_message_bytes cfg heyu topic_ payload_ w)) = rcvihc w
  /\ match payload_ with
     | NotUtf8 =>
         on_message_bytes cfg heyu topic_ payload_ w = (RaisesUnicodeDecodeError, w)
     | Utf8 text =>
         let msg := Message topic_ text in
         on_message_bytes cfg heyu topic_ payload_ w
           = (Returns, snd (on_message cfg heyu msg w))
         /\ (effects_of (on_message cfg heyu msg) w
               = [ Print ("Received: " ++ topic_ ++ " " ++ upper text);
                   Print "Invalid command or home code" ]
             \/ (length (invocations (effects_of (on_message cfg heyu msg) w)) = 1
                 /\ length (publishes (effects_of (on_message cfg heyu msg) w)) = 1))
     end.
Proof.
  destruct payload_ as [text|]; cbn [on_message_bytes]; [|split; reflexivity].
  destruct (on_message_total cfg heyu (Message topic_ text) w) as [Hr [Hs Hd]].
  destruct (on_message cfg heyu (Message topic_ text) w) as [[u|e] w'] eqn:E;
    cbn [fst snd] in *; [|discriminate Hr].
  split; [exact Hs|]. split; [reflexivity | exact Hd].
Qed.

(** X2. Whatever [on_message] runs is [heyu] with one of the words on, off,
    fon and foff and a housecode of the grammar in lower case (with a newline
    after it, if the topic ended in one), and whatever it publishes is ON or
    OFF, retained, to the state topic of that housecode: nothing else of the
    message reaches the command line or the broker. *)
Theorem on_message_outcomes cfg heyu msg w :
  let es := effects_of (on_message cfg heyu msg) w in
  (invocations es = [] /\ publishes es = [])
  \/ exists g tl C,
       housecode_grammar g = true
       /\ (tl = EmptyString \/ tl = nl)
       /\ (C = "ON" \/ C = "OFF")
       /\ upper (payload msg) = C
       /\ upper (last (split "/" (topic msg)) EmptyString) = g ++ tl
       /\ invocations es = [["heyu"; lower (mode_action (cm17 cfg) C); lower g ++ tl]]
       /\ publishes es = [(stattopic cfg ++ "/" ++ lower g ++ tl, C, true)].
Proof.
  cbv zeta. destruct (on_message_summary cfg heyu msg w) as [Hi Hp]. cbv zeta in Hi, Hp.
  rewrite Hi, Hp. clear Hi Hp.
  destruct (accepted msg) eqn:Ea; [right | left; split; reflexivity].
  unfold accepted in Ea. apply andb_true_iff in Ea. destruct Ea as [Ec Er].
  apply str_in_on_off in Ec.
  destruct (re_match hcpattern _) as [c|] eqn:Em in Er; [clear Er | discriminate].
  apply hcpattern_match_inv in Em. destruct Em as [g [Hg Em]].
  assert (Et : exists tl, (tl = EmptyString \/ tl = nl)
                 /\ upper (last (split "/" (topic msg)) EmptyString) = g ++ tl).
  { destruct Em as [E | E]; [exists EmptyString | exists nl]; rewrite E;
      rewrite ?append_empty; auto. }
  destruct Et as [tl [Htl Eseg]].
  exists g, tl, (upper (payload msg)).
  repeat (split; [first [assumption | reflexivity]|]).
  unfold execute_argv. rewrite heyucmd_of_command by exact Ec.
  rewrite (command_upper _ Ec), Eseg, lower_append.
  replace (lower tl) with tl by (destruct Htl as [-> | ->]; reflexivity).
  split; reflexivity.
Qed.

(** X3. [on_message] looks at nothing but the payload and the last segment
    of the topic, both without regard to case: two messages that agree on
    these in upper case give the same [heyu] run and the same publish,
    whatever comes before the last slash, whatever happened before and
    whatever [heyu] answers. *)
Theorem on_message_last_segment_only cfg heyu1 heyu2 msg1 msg2 w1 w2 :
  upper (payload msg1) = upper (payload msg2) ->
  upper (last (split "/" (topic msg1)) EmptyString)
    = upper (last (split "/" (topic msg2)) EmptyString) ->
  invocations (effects_of (on_message cfg heyu1 msg1) w1)
    = invocations (effects_of (on_message cfg heyu2 msg2) w2)
  /\ publishes (effects_of (on_message cfg heyu1 msg1) w1)
     = publishes (effects_of (on_message cfg heyu2 msg2) w2).
Proof.
  intros Hp Ht.
  destruct (on_message_summary cfg heyu1 msg1 w1) as [Hi1 Hp1].
  destruct (on_message_summary cfg heyu2 msg2 w2) as [Hi2 Hp2].
  cbv zeta in *. rewrite Hi1, Hp1, Hi2, Hp2.
  unfold accepted. rewrite Hp, Ht. split; reflexivity.
Qed.

Lemma on_message_last_segment_only_witness :
  invocations (effects_of (on_message default_config heyu_ok
                             (Message "x10/cmd/A1" "ON")) initial)
    = invocations (effects_of (on_message default_config heyu_fails
                                 (Message "some/other/topic/a1" "on"))
                     (World "B2" [Print "earlier"]))
  /\ publishes (effects_of (on_message default_config heyu_ok
                              (Message "x10/cmd/A1" "ON")) initial)
     = publishes (effects_of (on_message default_config heyu_fails
                                (Message "some/other/topic/a1" "on"))
                    (World "B2" [Print "earlier"])).
Proof.
  apply (on_message_last_segment_only default_config heyu_ok heyu_fails
           (Message "x10/cmd/A1" "ON") (Message "some/other/topic/a1" "on")
           initial (World "B2" [Print "earlier"])); reflexivity.
Defined.

(** X4. What the housecode pattern of line 214 accepts: the strings of
    [[A-P][0-9]+], and those strings with one newline after them; nothing
    else. *)
Theorem hcpattern_accepts_exactly s :
  (exists c, re_match hcpattern s = Some c)
  <-> exists g, housecode_grammar g = true /\ (s = g \/ s = g ++ nl).
Proof.
  split.
  - intros [c H]. eapply hcpattern_match_inv. exact H.
  - intros [g [Hg [-> | ->]]]; exists [].
    + apply hcpattern_accepts. exact Hg.
    + apply hcpattern_accepts_tail; [exact Hg | reflexivity].
Qed.

(** ** The monitor loop *)

Lemma substring_append w s : substring 0 (String.length w) (w ++ s) = w.
Proof.
  induction w as [|a w IH]; cbn [append String.length].
  - destruct s; reflexivity.
  - cbn [substring]. rewrite IH. reflexivity.
Qed.

Lemma all_chars_append p s t :
  all_chars p (s ++ t) = all_chars p s && all_chars p t.
Proof.
  induction s as [|a s IH]; cbn [append all_chars]; [reflexivity|].
  rewrite IH, andb_assoc. reflexivity.
Qed.

(** The greedy loop over a character class takes characters of the class
    only, and hands the rest to what follows. *)
Lemma star_loop_rng lo hi k : forall fuel st c,
  star_loop (Rng lo hi) k fuel st = Some c ->
  exists ds s', rest st = ds ++ s'
                /\ all_chars (in_range lo hi) ds = true
                /\ k (MState (pos st + String.length ds) s' (caps st)) = Some c.
Proof.
  assert (Base : forall st c, k st = Some c ->
            exists ds s', rest st = ds ++ s'
                          /\ all_chars (in_range lo hi) ds = true
                          /\ k (MState (pos st + String.length ds) s' (caps st)) = Some c).
  { intros [p r cs] c H. exists EmptyString, r. cbn [pos rest caps String.length append].
    rewrite Nat.add_0_r. auto. }
  induction fuel as [|fuel IH]; intros st c H; cbn [star_loop] in H.
  - apply Base. exact H.
  - fold (star_loop (Rng lo hi) k) in H. cbn [m] in H. unfold one_char in H.
    destruct st as [p r cs]. cbn [rest] in H.
    destruct r as [|x r]; [apply Base; exact H|].
    destruct (in_range lo hi x) eqn:Ex; [|apply Base; exact H].
    unfold advance in H. cbn [rest pos caps String.length] in H.
    rewrite (proj2 (Nat.ltb_lt _ _)) in H by lia.
    destruct (star_loop (Rng lo hi) k fuel _) as [c0|] eqn:El; [|apply Base; exact H].
    inversion H; subst c0. apply IH in El.
    destruct El as [ds [s' [Hr [Hds Hk]]]]. cbn [rest pos caps] in *. subst r.
    exists (String x ds), s'. cbn [append all_chars String.length pos rest caps].
    rewrite Ex, Hds, <- Nat.add_succ_comm. auto.
Qed.

(** The housecode an address line declares is one of the grammar. *)
Lemma rercviaddr_grammar line c :
  search rercviaddr line = Some c -> housecode_grammar (str_group c 1) = true.
Proof.
  intros H. apply search_from_inv in H. destruct H as [p [s H]].
  unfold rercviaddr in H. peel H. peel H. peel H. peel H.
  rename st2 into st4. rewrite m_grp, m_seq in H. cbn [m] in H.
  unfold one_char in H. destruct st4 as [p4 r4 c4]. cbn [rest] in H.
  destruct r4 as [|x r4]; [discriminate|].
  destruct (in_range "A" "P" x) eqn:Ex; [|discriminate].
  unfold Plus in H. rewrite m_seq in H. cbn [m] in H. unfold one_char, advance in H.
  cbn [rest pos caps] in H.
  destruct r4 as [|d r4]; [discriminate|].
  destruct (in_range "0" "9" d) eqn:Ed; [|discriminate].
  fold (star_loop (Rng "0" "9")
          (fun st' => accept (close_group 1 (MState p4 (String x (String d r4)) c4) st')))
    in H.
  apply star_loop_rng in H. destruct H as [ds [s' [Hr [Hds H]]]].
  cbn [rest pos caps] in *. subst r4.
  unfold accept, close_group in H. cbn [pos rest caps] in H.
  assert (Hc : c = (1, substring 0 (S (S p4) + String.length ds - p4)
                         (String x (String d (ds ++ s')))) :: c4) by congruence.
  clear H. subst c.
  unfold str_group. cbn [group_lookup Nat.eqb].
  replace (S (S p4) + String.length ds - p4) with (String.length (String x (String d ds)))
    by (cbn [String.length]; lia).
  change (String x (String d (ds ++ s'))) with (String x (String d ds) ++ s').
  rewrite substring_append.
  cbn [housecode_grammar truthy all_chars]. rewrite Ex, Ed, Hds. reflexivity.
Qed.

Lemma addr_of_grammar line a : addr_of line = Some a -> housecode_grammar a = true.
Proof.
  unfold addr_of. destruct (search rercviaddr line) as [c|] eqn:E; [|discriminate].
  cbn [option_map]. intros H. inversion H; subst. eapply rercviaddr_grammar. exact E.
Qed.

Lemma func_of_on_off line f : func_of line = Some f -> f = "On" \/ f = "Off".
Proof.
  unfold func_of. destruct (search rercvifunc line) as [c|] eqn:E; [|discriminate].
  cbn [option_map]. intros H. inversion H; subst. eapply rercvifunc_group. exact E.
Qed.

Lemma paired_wellformed a f lines :
  paired a f lines -> housecode_grammar a = true /\ (upper f = "ON" \/ upper f = "OFF").
Proof.
  intros [pre mid post la lf _ Ha _ _ _ Hf | pre post l _ Ha Hf];
    (split; [eapply addr_of_grammar; exact Ha|]);
    destruct (func_of_on_off _ _ Hf) as [-> | ->]; auto.
Qed.

(** X5. Starting with no housecode pending, the monitor loop publishes
    nothing but ON or OFF, retained, to the state topic of a housecode of
    the grammar [[A-P][0-9]+] in lower case - whatever [heyu monitor]
    prints. *)
Theorem monitor_publishes_wellformed cfg p w :
  rcvihc w = EmptyString ->
  Forall (fun m_ => exists g C,
            housecode_grammar g = true /\ (C = "ON" \/ C = "OFF")
            /\ m_ = (stattopic cfg ++ "/" ++ lower g, C, true))
         (publishes (effects_of (main_loop cfg p) w)).
Proof.
  intros Hw. apply Forall_forall. intros m_ Hin.
  rewrite main_loop_publishes, Hw in Hin. apply in_map_iff in Hin.
  destruct Hin as [[a f] [<- Hin]]. apply lines_run_paired in Hin.
  destruct Hin as [[Ht _] | Hp]; [discriminate|].
  apply paired_wellformed in Hp. destruct Hp as [Hg HC].
  exists a, (upper f). auto.
Qed.

Lemma monitor_publishes_wellformed_witness :
  Forall (fun m_ => exists g C,
            housecode_grammar g = true /\ (C = "ON" \/ C = "OFF")
            /\ m_ = (stattopic default_config ++ "/" ++ lower g, C, true))
         (publishes (effects_of
            (main_loop default_config
               (Process [sample_addr_a1; sample_func_on; sample_both] 0)) initial)).
Proof.
  apply (monitor_publishes_wellformed default_config
           (Process [sample_addr_a1; sample_func_on; sample_both] 0) initial).
  reflexivity.
Defined.

(** X6. A function line uses the pending housecode up: after an address
    line for [a], of two function lines only the first gives an event; the
    second finds nothing pending and is dropped. *)
Theorem function_line_consumes cfg rc la lf1 lf2 a f1 f2 w :
  addr_of la = Some a -> func_of la = None ->
  addr_of lf1 = None -> func_of lf1 = Some f1 ->
  addr_of lf2 = None -> func_of lf2 = Some f2 ->
  publishes (effects_of (main_loop cfg (Process [la; lf1; lf2] rc)) w)
    = [(stattopic cfg ++ "/" ++ lower a, upper f1, true)]
  /\ rcvihc (snd (main_loop cfg (Process [la; lf1; lf2] rc) w)) = EmptyString.
Proof.
  intros Ha Hf Ha1 Hf1 Ha2 Hf2.
  assert (E : lines_run (rcvihc w) (yielded [la; lf1; lf2]) = (EmptyString, [(a, f1)])).
  { cbn [yielded].
    rewrite (addr_line_truthy _ _ Ha), (func_line_truthy _ _ Hf1),
      (func_line_truthy _ _ Hf2).
    cbn [lines_run]. unfold line_step. rewrite Ha, Hf, Ha1, Hf1, Ha2, Hf2.
    rewrite (addr_of_truthy _ _ Ha). reflexivity. }
  split.
  - rewrite main_loop_publishes. cbn [stdout]. rewrite E. reflexivity.
  - rewrite main_loop_run. cbn [stdout snd rcvihc]. rewrite E. reflexivity.
Qed.

Lemma function_line_consumes_witness :
  publishes (effects_of (main_loop default_config
               (Process [sample_addr_a1; sample_func_on; sample_func_off] 0)) initial)
    = [("x10/stat/a1", "ON", true)]
  /\ rcvihc (snd (main_loop default_config
               (Process [sample_addr_a1; sample_func_on; sample_func_off] 0) initial))
     = EmptyString.
Proof.
  apply (function_line_consumes default_config 0%Z
           sample_addr_a1 sample_func_on sample_func_off "A1" "On" "Off" initial);
    vm_compute; reflexivity.
Defined.

Lemma line_step_irrelevant slot line :
  relevant line = false -> line_step slot line = (slot, []).
Proof.
  unfold relevant, line_step.
  destruct (addr_of line); destruct (func_of line); try discriminate. reflexivity.
Qed.

Lemma lines_run_filter lines : forall slot,
  lines_run slot (filter relevant lines) = lines_run slot lines.
Proof.
  induction lines as [|l lines IH]; intros slot; cbn [filter]; [reflexivity|].
  destruct (relevant l) eqn:E; cbn [lines_run].
  - destruct (line_step slot l) as [s1 e1]. rewrite IH. reflexivity.
  - rewrite (line_step_irrelevant _ _ E), IH.
    destruct (lines_run slot lines). reflexivity.
Qed.

Lemma yielded_all lines : Forall (fun l => truthy l = true) lines -> yielded lines = lines.
Proof.
  induction 1 as [|l lines Hl _ IH]; cbn [yielded]; [reflexivity|].
  rewrite Hl, IH. reflexivity.
Qed.

(** X7. Output of [heyu monitor] that is neither an address line nor a
    function line changes nothing, wherever it stands: leaving those lines
    out gives the same publishes and the same pending housecode. *)
Theorem other_lines_ignored cfg lines rc w :
  Forall (fun l => truthy l = true) lines ->
  publishes (effects_of (main_loop cfg (Process (filter relevant lines) rc)) w)
    = publishes (effects_of (main_loop cfg (Process lines rc)) w)
  /\ snd (main_loop cfg (Process (filter relevant lines) rc) w)
     = snd (main_loop cfg (Process lines rc) w).
Proof.
  intros Hl.
  assert (Hf : Forall (fun l => truthy l = true) (filter relevant lines)).
  { apply Forall_forall. intros l Hin. apply filter_In in Hin.
    rewrite Forall_forall in Hl. apply Hl. apply Hin. }
  rewrite !main_loop_publishes, !main_loop_run. cbn [stdout snd].
  rewrite (yielded_all _ Hl), (yielded_all _ Hf), lines_run_filter.
  split; reflexivity.
Qed.

Lemma other_lines_ignored_witness :
  let lines := [ "07/30 12:34:55  Monitor started" ++ nl; sample_addr_a1;
                 "07/30 12:34:57  sndc func      StatusReq : hc C" ++ nl;
                 sample_func_on ] in
  publishes (effects_of (main_loop default_config
                           (Process (filter relevant lines) 0)) initial)
    = publishes (effects_of (main_loop default_config (Process lines 0)) initial)
  /\ snd (main_loop default_config (Process (filter relevant lines) 0) initial)
     = snd (main_loop default_config (Process lines 0) initial).
Proof.
  apply (other_lines_ignored default_config
           [ "07/30 12:34:55  Monitor started" ++ nl; sample_addr_a1;
             "07/30 12:34:57  sndc func      StatusReq : hc C" ++ nl;
             sample_func_on ] 0%Z initial).
  repeat constructor.
Defined.

(** X8. The exit code of [heyu monitor] decides how the main loop ends and
    nothing else: every line is handled before the code is looked at, so
    what was published and what is pending are the same for all codes. *)
Theorem exit_code_after_lines cfg lines rc1 rc2 w :
  snd (main_loop cfg (Process lines rc1) w) = snd (main_loop cfg (Process lines rc2) w)
  /\ effects_of (main_loop cfg (Process lines rc1)) w
     = effects_of (main_loop cfg (Process lines rc2)) w.
Proof.
  unfold effects_of. rewrite !main_loop_run. split; reflexivity.
Qed.

(** ** [on_connect] and the discovery settings *)

Lemma subscriptions_app l1 l2 :
  subscriptions (l1 ++ l2) = (subscriptions l1 ++ subscriptions l2)%list.
Proof.
  induction l1 as [|e l1 IH]; simpl; [reflexivity|].
  destruct e; simpl; rewrite IH; reflexivity.
Qed.

Lemma subscriptions_announces cfg house units :
  subscriptions (flat_map (announce_effects cfg house) units) = [].
Proof. induction units as [|u units IH]; cbn [flat_map app subscriptions]; auto. Qed.

Lemma subscriptions_connect cfg rc :
  subscriptions (connect_effects cfg rc) = [cmdtopic cfg ++ "/+"].
Proof.
  unfold connect_effects. rewrite !subscriptions_app.
  replace (subscriptions (if (rc =? 0)%Z then [] else _)) with (@nil string)
    by (destruct (rc =? 0)%Z; reflexivity).
  cbn [subscriptions app]. f_equal.
  induction (discoveryhouses cfg) as [|h hs IH]; [reflexivity|].
  cbn [flat_map app subscriptions].
  rewrite subscriptions_app, subscriptions_announces, IH. reflexivity.
Qed.

(** X9. Whatever the result code and the configuration, [on_connect]
    returns normally, leaves the pending housecode alone, subscribes exactly
    once, to [cmdtopic/+], and publishes sixteen retained discovery messages
    for each configured letter, repeated letters included - none at all when
    no letter is configured. *)
Theorem on_connect_subscribes_and_announces cfg rc w :
  on_connect cfg rc w = (Ok tt, World (rcvihc w) (log w ++ connect_effects cfg rc))
  /\ subscriptions (effects_of (on_connect cfg rc) w) = [cmdtopic cfg ++ "/+"]
  /\ length (publishes (effects_of (on_connect cfg rc) w))
     = 16 * length (discoveryhouses cfg)
  /\ Forall (fun m_ => snd m_ = true) (publishes (effects_of (on_connect cfg rc) w)).
Proof.
  split; [apply on_connect_writes|].
  split.
  { rewrite (writes_effects _ _ w (on_connect_writes cfg rc)).
    apply subscriptions_connect. }
  rewrite on_connect_publishes. split.
  - rewrite length_map, length_prod, length_seq. lia.
  - apply Forall_forall. intros m_ Hin. apply in_map_iff in Hin.
    destruct Hin as [hu [<- _]]. reflexivity.
Qed.

(** X10. A refused connection is only logged: with a result code other than
    0, [on_connect] prints the error first and then goes on as after a
    successful connection, with the same subscription and the same discovery
    messages. *)
Theorem on_connect_refused_goes_on cfg rc w :
  rc <> 0%Z ->
  effects_of (on_connect cfg rc) w
    = Print ("Error connecting to MQTT broker rc " ++ str_int rc)
        :: Print ("Connected to MQTT broker, result code " ++ str_int rc)
        :: skipn 1 (effects_of (on_connect cfg 0) w)
  /\ subscriptions (effects_of (on_connect cfg rc) w)
     = subscriptions (effects_of (on_connect cfg 0) w)
  /\ publishes (effects_of (on_connect cfg rc) w)
     = publishes (effects_of (on_connect cfg 0) w).
Proof.
  intros Hrc.
  rewrite !(writes_effects _ _ w (on_connect_writes cfg _)).
  rewrite !subscriptions_connect, !publishes_connect.
  split; [|split; reflexivity].
  unfold connect_effects. apply Z.eqb_neq in Hrc. rewrite Hrc. reflexivity.
Qed.

Lemma on_connect_refused_goes_on_witness :
  effects_of (on_connect default_config 5) initial
    = Print "Error connecting to MQTT broker rc 5"
        :: Print "Connected to MQTT broker, result code 5"
        :: skipn 1 (effects_of (on_connect default_config 0) initial)
  /\ subscriptions (effects_of (on_connect default_config 5) initial)
     = subscriptions (effects_of (on_connect default_config 0) initial)
  /\ publishes (effects_of (on_connect default_config 5) initial)
     = publishes (effects_of (on_connect default_config 0) initial).
Proof.
  apply (on_connect_refused_goes_on default_config 5%Z initial). discriminate.
Defined.

Lemma char_in_letters c : char_in c "ABCDEFGHIJKLMNOP" = in_range "A" "P" c.
Proof. destruct c as [[] [] [] [] [] [] [] []]; reflexivity. Qed.

Lemma letter_in_house_letters c :
  in_range "A" "P" c = true -> In (String c EmptyString) house_letters.
Proof.
  destruct c as [[] [] [] [] [] [] [] []]; intros H; try discriminate H;
    unfold house_letters; simpl; tauto.
Qed.

Lemma list_ascii_of_string_append s t :
  list_ascii_of_string (s ++ t)
  = (list_ascii_of_string s ++ list_ascii_of_string t)%list.
Proof.
  induction s as [|a s IH]; cbn [append list_ascii_of_string app]; [|rewrite IH];
    reflexivity.
Qed.

Lemma upper_append s t : upper (s ++ t) = upper s ++ upper t.
Proof.
  unfold upper. induction s as [|a s IH]; cbn [append map_string]; [|rewrite IH];
    reflexivity.
Qed.

Lemma discovery_letters_in_house_letters v :
  Forall (fun h => In h house_letters) (discovery_letters v).
Proof.
  apply Forall_forall. intros h Hin.
  unfold discovery_letters in Hin. apply in_map_iff in Hin.
  destruct Hin as [c [<- Hc]]. apply filter_In in Hc. destruct Hc as [_ Hc].
  rewrite char_in_letters in Hc. apply letter_in_house_letters. exact Hc.
Qed.

(** X11. How an ASCII setting of [DISCOVERY_HOUSECODES] is read (line 85):
    character by character, in order and with repetitions; a character
    counts when it is one of the letters A to P in either case, and counts
    as the capital letter; every other ASCII character is skipped, and the
    letters read are among the sixteen housecode letters. *)
Theorem discovery_letters_read_ascii v1 v2 c :
  all_chars is_ascii v1 = true ->
  all_chars is_ascii v2 = true ->
  is_ascii c = true ->
  discovery_letters (v1 ++ v2) = (discovery_letters v1 ++ discovery_letters v2)%list
  /\ discovery_letters (String c EmptyString)
     = (if in_range "A" "P" c then [String c EmptyString]
        else if in_range "a" "p" c then [String (upper_char c) EmptyString]
        else [])
  /\ Forall (fun h => In h house_letters) (discovery_letters v1).
Proof.
  intros _ _ _. split; [|split].
  - unfold discovery_letters.
    rewrite upper_append, list_ascii_of_string_append, filter_app, map_app. reflexivity.
  - clear. destruct c as [[] [] [] [] [] [] [] []]; reflexivity.
  - apply discovery_letters_in_house_letters.
Qed.

Lemma discovery_letters_read_ascii_witness :
  discovery_letters ("b, A" ++ ";a-Q9")
    = (discovery_letters "b, A" ++ discovery_letters ";a-Q9")%list
  /\ discovery_letters (String "c" EmptyString)
     = (if in_range "A" "P" "c" then [String "c"%char EmptyString]
        else if in_range "a" "p" "c" then [String (upper_char "c") EmptyString]
        else [])
  /\ Forall (fun h => In h house_letters) (discovery_letters "b, A").
Proof.
  apply (discovery_letters_read_ascii "b, A" ";a-Q9" "c"); reflexivity.
Defined.

Lemma NoDup_list_prod {A B : Type} (l1 : list A) (l2 : list B) :
  NoDup l1 -> NoDup l2 -> NoDup (list_prod l1 l2).
Proof.
  intros H1 H2. induction H1 as [|x l1 Hx H1 IH]; cbn [list_prod]; [constructor|].
  apply NoDup_app.
  - apply NoDup_map_NoDup_ForallPairs; [|exact H2].
    intros y1 y2 _ _ E. inversion E. reflexivity.
  - exact IH.
  - intros [a b] Hin Hin'. apply in_map_iff in Hin. destruct Hin as [y [E _]].
    inversion E; subst. apply in_prod_iff in Hin'. destruct Hin' as [Hin' _].
    contradiction.
Qed.

Lemma NoDup_map_injective_on {A B : Type} (f : A -> B) (l : list A) :
  NoDup (map f l) -> ForallPairs (fun x y => f x = f y -> x = y) l.
Proof.
  induction l as [|a l IH]; cbn [map]; intros H x y Hx Hy E.
  - destruct Hx.
  - inversion H as [|? ? Hna Hnd]; subst.
    destruct Hx as [-> | Hx]; destruct Hy as [-> | Hy].
    + reflexivity.
    + exfalso. apply Hna. rewrite E. apply in_map. exact Hy.
    + exfalso. apply Hna. rewrite <- E. apply in_map. exact Hx.
    + apply IH; assumption.
Qed.

Lemma NoDup_map_incl {A B : Type} (f : A -> B) (l all : list A) :
  NoDup (map f all) -> incl l all -> NoDup l -> NoDup (map f l).
Proof.
  intros Hall Hincl Hl. apply NoDup_map_NoDup_ForallPairs; [|exact Hl].
  intros x y Hx Hy. apply (NoDup_map_injective_on f all Hall); apply Hincl; assumption.
Qed.

(** X12. Whatever the environment, when no letter is repeated in
    [DISCOVERY_HOUSECODES] no two discovery messages of [on_connect] go to
    the same topic: a letter and a unit never read as another letter and
    unit. *)
Theorem discovery_topics_distinct environ rc w :
  NoDup (discoveryhouses (load_config environ)) ->
  NoDup (map (fun m_ => fst (fst m_))
             (publishes (effects_of (on_connect (load_config environ) rc) w))).
Proof.
  intros Hnd. rewrite on_connect_publishes, map_map.
  set (cfg := load_config environ) in *.
  change (NoDup (map (fun hu : string * nat =>
                        discoverytopic cfg
                          ++ ("/switch/x10mqtt/x10_" ++ lower (fst hu)
                                ++ str_nat (snd hu) ++ "/config"))
                   (list_prod (discoveryhouses cfg) (seq 1 16)))).
  rewrite <- (map_map
                (fun hu : string * nat =>
                   "/switch/x10mqtt/x10_" ++ lower (fst hu) ++ str_nat (snd hu)
                     ++ "/config")
                (append (discoverytopic cfg))).
  apply NoDup_map_append.
  apply (NoDup_map_incl _ _ (list_prod house_letters (seq 1 16))).
  - apply distinctb_NoDup. vm_compute. reflexivity.
  - intros [h u] Hin. apply in_prod_iff in Hin. destruct Hin as [Hh Hu].
    apply in_prod_iff. split; [|exact Hu].
    pose proof (discovery_letters_in_house_letters
                  (environ_get environ "DISCOVERY_HOUSECODES" EmptyString)) as H.
    rewrite Forall_forall in H. apply H. exact Hh.
  - apply NoDup_list_prod; [exact Hnd | apply seq_NoDup].
Qed.

Lemma discovery_topics_distinct_witness :
  NoDup (map (fun m_ => fst (fst m_))
             (publishes (effects_of
                (on_connect
                   (load_config (fun key => if key =? "DISCOVERY_HOUSECODES"
                                            then Some "p, c, A" else None)) 0)
                initial))).
Proof.
  apply (discovery_topics_distinct
           (fun key => if key =? "DISCOVERY_HOUSECODES" then Some "p, c, A" else None)
           0%Z initial).
  apply distinctb_NoDup. vm_compute. reflexivity.
Defined.

Lemma printable_json_escape_char c : all_chars printable (json_escape_char c) = true.
Proof. destruct c as [[] [] [] [] [] [] [] []]; reflexivity. Qed.

Lemma printable_json_escape s : all_chars printable (json_escape s) = true.
Proof.
  induction s as [|c s IH]; cbn [json_escape]; [reflexivity|].
  rewrite all_chars_append, printable_json_escape_char, IH. reflexivity.
Qed.

Lemma printable_json_string s : all_chars printable (json_string s) = true.
Proof.
  unfold json_string. cbn [all_chars].
  rewrite all_chars_append, printable_json_escape. reflexivity.
Qed.

(** X13. The payload of a discovery message is printable ASCII, whatever
    characters the configured topics hold: quotes, backslashes and control
    characters of [STAT_TOPIC] and [CMD_TOPIC] are escaped by [json.dumps].
    The retained message is published to the topic built from
    [DISCOVERY_TOPIC] as it is. *)
Theorem discovery_payload_printable cfg house unit w :
  publishes (effects_of (ha_discovery_announce cfg house unit) w)
    = [(discoverytopic cfg ++ "/switch/x10mqtt/x10_" ++ lower house ++ str_nat unit
          ++ "/config",
        json_dumps (ha_discovery_config cfg house unit), true)]
  /\ all_chars printable (json_dumps (ha_discovery_config cfg house unit)) = true.
Proof.
  split.
  - rewrite (writes_effects _ _ w (ha_discovery_announce_writes cfg house unit)).
    reflexivity.
  - unfold json_dumps, ha_discovery_config. cbn [map join fst snd].
    repeat (rewrite ?all_chars_append, ?printable_json_string; cbn [all_chars andb]).
    reflexivity.
Qed.

(** ** Start-up and the whole script *)

Lemma connections_app l1 l2 :
  connections (l1 ++ l2) = (connections l1 ++ connections l2)%list.
Proof.
  induction l1 as [|e l1 IH]; simpl; [reflexivity|].
  destruct e; simpl; rewrite IH; reflexivity.
Qed.

Lemma credentials_set_app l1 l2 :
  credentials_set (l1 ++ l2) = (credentials_set l1 ++ credentials_set l2)%list.
Proof.
  induction l1 as [|e l1 IH]; simpl; [reflexivity|].
  destruct e; simpl; rewrite IH; reflexivity.
Qed.

(** X14. The script monitors only when it is connected.  Either the
    start-up connected once, started the network loop, and [heyu monitor]
    was started once, the script then ending as the main loop does; or the
    start-up ended the script with exit code 1, after at most one connection
    attempt, and then neither the network loop nor [heyu monitor] was
    started and nothing was published. *)
Theorem program_monitors_only_when_connected py_int environ connects p :
  let '(actions, es, ending_) := program py_int environ connects p in
  (exists broker port,
     environ "MQTT_HOST" = Some broker
     /\ port_setting py_int environ = Some port
     /\ connects broker port = true
     /\ connections actions = [(broker, port)]
     /\ loop_started actions = true
     /\ spawns es = [["heyu"; "monitor"]]
     /\ ending_ = (if (wait p =? 0)%Z then Finished else Raised (NameError "cmd")))
  \/ (ending_ = Exited 1
      /\ length (connections actions) <= 1
      /\ Forall (fun bp => connects (fst bp) (snd bp) = false) (connections actions)
      /\ loop_started actions = false
      /\ es = []).
Proof.
  unfold program, startup, port_setting.
  destruct (environ "MQTT_HOST") as [broker|];
    [|right; repeat split; [cbn; lia | constructor]].
  destruct (match environ "MQTT_PORT" with Some v => py_int v | None => None end)
    as [port|] eqn:Ep;
    [|right; repeat split; [cbn; lia | constructor]].
  cbv zeta.
  destruct (connects broker port) eqn:Ec.
  - rewrite main_loop_run. unfold monitor_end.
    assert (Ha : forall creds tail_,
              connections creds = [] ->
              connections
                ([Say ("Establishing MQTT to " ++ broker ++ " port " ++ str_int port
                         ++ "...")]
                   ++ creds ++ [Connect broker port] ++ tail_)%list
              = ((broker, port) :: connections tail_)).
    { intros creds tail_ Hc. cbn [app connections].
      rewrite !connections_app, Hc. reflexivity. }
    assert (Hl : forall creds tail_,
              (forall more, loop_started (creds ++ more) = loop_started more) ->
              loop_started
                ([Say ("Establishing MQTT to " ++ broker ++ " port " ++ str_int port
                         ++ "...")]
                   ++ creds ++ [Connect broker port] ++ tail_)%list
              = loop_started tail_).
    { intros creds tail_ Hc. cbn [app loop_started]. rewrite Hc. reflexivity. }
    destruct (wait p =? 0)%Z; left; exists broker, port;
      (split; [reflexivity|]); (split; [reflexivity|]); (split; [exact Ec|]);
      (split; [rewrite Ha;
               [destruct (cm17 (load_config environ)); reflexivity
               | destruct (truthy _ && truthy _); reflexivity]|]);
      (split; [rewrite Hl;
               [destruct (cm17 (load_config environ)); reflexivity
               | intros more; destruct (truthy _ && truthy _); reflexivity]|]);
      (split; [|reflexivity]);
      cbn [log initial app spawns]; rewrite spawns_events; reflexivity.
  - right. split; [reflexivity|].
    destruct (truthy _ && truthy _); cbn [app connections loop_started length];
      (split; [lia|]); (split; [constructor; [exact Ec | constructor]|]);
      split; reflexivity.
Qed.

(** X15. Credentials are used only when both are there: the start-up calls
    [username_pw_set], once and with the two settings as they are, exactly
    when host and port are set and neither [MQTT_USER] nor [MQTT_PASSWORD]
    is missing or empty; a user name without a password is dropped
    silently. *)
Theorem credentials_only_when_both py_int environ connects :
  credentials_set (fst (startup py_int environ connects))
  = match environ "MQTT_HOST", port_setting py_int environ,
          environ "MQTT_USER", environ "MQTT_PASSWORD" with
    | Some _, Some _, Some (String a u), Some (String b pw) =>
        [(String a u, String b pw)]
    | _, _, _, _ => []
    end.
Proof.
  unfold startup, port_setting, environ_get.
  destruct (environ "MQTT_HOST") as [broker|]; [|reflexivity].
  destruct (match environ "MQTT_PORT" with Some v => py_int v | None => None end)
    as [port|]; [|reflexivity].
  cbv zeta.
  destruct (environ "MQTT_USER") as [[|a u]|];
    destruct (environ "MQTT_PASSWORD") as [[|b pw]|];
    destruct (connects broker port); cbn [truthy andb fst app credentials_set];
    try reflexivity;
    destruct (cm17 (load_config environ)); reflexivity.
Qed.

(** X16. Without a host, or without a port that [int] can read, the script
    prints one line and ends with exit code 1 before it tries to connect;
    when both are missing the line is the one about the host. *)
Theorem missing_setting_exits py_int environ connects p :
  environ "MQTT_HOST" = None \/ port_setting py_int environ = None ->
  program py_int environ connects p
  = ([Say match environ "MQTT_HOST" with
          | Some _ => "Must define MQTT port in configuration!"
          | None => "Must define MQTT Host in configuration!"
          end],
     [], Exited 1).
Proof.
  unfold program, startup, port_setting. intros [H | H].
  - rewrite H. reflexivity.
  - destruct (environ "MQTT_HOST"); [|reflexivity]. rewrite H. reflexivity.
Qed.

Lemma missing_setting_exits_witness :
  program decimal_port
    (fun key => if key =? "MQTT_HOST" then Some "broker.lan"
                else if key =? "MQTT_PORT" then Some "mqtt" else None)
    (fun _ _ => true) (Process [sample_addr_a1] 0)
  = ([Say "Must define MQTT port in configuration!"], [], Exited 1).
Proof.
  apply (missing_setting_exits decimal_port
           (fun key => if key =? "MQTT_HOST" then Some "broker.lan"
                       else if key =? "MQTT_PORT" then Some "mqtt" else None)
           (fun _ _ => true) (Process [sample_addr_a1] 0)).
  right. reflexivity.
Defined.

(** X17. Over the whole script, whatever the environment and whatever
    [heyu monitor] prints, the main thread publishes nothing but ON or OFF,
    retained, to the state topic of a housecode of the grammar, and each
    such event has its address line and its function line in the output:
    [rcvihc] starts empty (line 52). *)
Theorem program_publishes_paired_events py_int environ connects p :
  let '(actions, es, ending_) := program py_int environ connects p in
  Forall (fun m_ => exists a f,
            paired a f (stdout p)
            /\ housecode_grammar a = true
            /\ (upper f = "ON" \/ upper f = "OFF")
            /\ m_ = (stattopic (load_config environ) ++ "/" ++ lower a, upper f, true))
         (publishes es).
Proof.
  unfold program. destruct (startup py_int environ connects) as [actions [code|]].
  - constructor.
  - destruct (main_loop (load_config environ) p initial) as [r w] eqn:Em.
    assert (El : log w = effects_of (main_loop (load_config environ) p) initial).
    { unfold effects_of. rewrite Em. reflexivity. }
    assert (F : Forall (fun m_ => exists a f,
                  paired a f (stdout p)
                  /\ housecode_grammar a = true
                  /\ (upper f = "ON" \/ upper f = "OFF")
                  /\ m_ = (stattopic (load_config environ) ++ "/" ++ lower a,
                           upper f, true))
                (publishes (log w))).
    { rewrite El, main_loop_publishes. apply Forall_forall. intros m_ Hin.
      apply in_map_iff in Hin. destruct Hin as [[a f] [<- Hin]].
      apply lines_run_paired in Hin. destruct Hin as [[Ht _] | Hp]; [discriminate|].
      exists a, f. destruct (paired_wellformed a f _ Hp) as [Hg Hf].
      split; [|auto].
      destruct (yielded_prefix (stdout p)) as [more ->]. apply paired_app. exact Hp. }
    destruct r; exact F.
Qed.

(** ** The two flows together *)

(** X18. A command that arrives between an address line and its function
    line does not disturb the pair: [on_message] leaves the pending
    housecode alone, so the function line still gives the event for the
    address, after whatever the command published. *)
Theorem command_between_lines cfg heyu la lf a f msg w :
  addr_of la = Some a -> func_of la = None ->
  addr_of lf = None -> func_of lf = Some f ->
  let c := handle_line cfg la ;; on_message cfg heyu msg ;; handle_line cfg lf in
  fst (c w) = Ok tt
  /\ rcvihc (snd (c w)) = EmptyString
  /\ publishes (effects_of c w)
     = (publishes (effects_of (on_message cfg heyu msg) (World a (log w)))
          ++ [((stattopic cfg ++ "/" ++ lower a)%string, upper f, true)])%list.
Proof.
  intros Ha Hf Ha' Hf'. cbv zeta.
  assert (E1 : handle_line cfg la w = (Ok tt, World a (log w))).
  { rewrite handle_line_step. unfold line_step. rewrite Ha, Hf.
    cbn [fst snd flat_map]. rewrite app_nil_r. reflexivity. }
  assert (E3 : forall l, handle_line cfg lf (World a l)
                         = (Ok tt, World EmptyString (l ++ event_effects cfg (a, f)))).
  { intros l. rewrite handle_line_step. unfold line_step. cbn [rcvihc log].
    rewrite Ha', Hf', (addr_of_truthy _ _ Ha). cbn [fst snd flat_map].
    rewrite app_nil_r. reflexivity. }
  assert (E : (handle_line cfg la ;; on_message cfg heyu msg ;; handle_line cfg lf) w
              = (Ok tt,
                 World EmptyString
                   (log w ++ message_effects cfg heyu msg (World a (log w))
                      ++ event_effects cfg (a, f)))).
  { unfold bind. rewrite E1, on_message_run. cbn [rcvihc log]. rewrite E3.
    rewrite <- app_assoc. reflexivity. }
  rewrite E. split; [reflexivity|]. split; [reflexivity|].
  erewrite effects_of_log by (rewrite E; reflexivity).
  rewrite publishes_app, on_message_effects. reflexivity.
Qed.

Lemma command_between_lines_witness :
  let c := handle_line default_config sample_addr_a1 ;;
           on_message default_config heyu_ok (Message "x10/cmd/B2" "OFF") ;;
           handle_line default_config sample_func_on in
  fst (c initial) = Ok tt
  /\ rcvihc (snd (c initial)) = EmptyString
  /\ publishes (effects_of c initial)
     = (publishes (effects_of (on_message default_config heyu_ok
                                 (Message "x10/cmd/B2" "OFF"))
                     (World "A1" (log initial)))
          ++ [("x10/stat/a1", "ON", true)])%list.
Proof.
  apply (command_between_lines default_config heyu_ok sample_addr_a1 sample_func_on
           "A1" "On" (Message "x10/cmd/B2" "OFF") initial);
    vm_compute; reflexivity.
Defined.
